(** * Memory subsystem: the L1 and L2 caches

    A shallow embedding of [l1_cache.c] and [l2_cache.c].  Every C
    [uint32_t] is a [Z] whose wrap-around is written out where an
    operation can leave the 32-bit range, the bit-packed status words
    ([v_d_tag], [v_r_d_tag]) stay packed and are handled with [Z.land],
    [Z.lor], [Z.shiftl] and [Z.shiftr], and the global cache arrays are
    lists threaded through the procedures.  Output parameters are passed
    in with the value the caller's variable holds and come back in the
    result record, so that "left untouched" is observable.  The arrays an
    insertion reads ([write_data]) and writes ([evicted_writeback_data])
    are distinct objects, as they are in [test_l1.c] and [test_l2.c].
    Reading an array past its end is undefined in C; the model reads the
    default word there and drops a write past the end, and every theorem
    that depends on such words assumes arrays of the size the code
    declares. *)

From Stdlib Require Import ZArith Lia Bool.
From stdpp Require Import base list.

Local Open Scope Z_scope.

(** ** Machine words *)

Definition wrap32 (x : Z) : Z := x mod 2 ^ 32.
Definition wrap8 (x : Z) : Z := x mod 2 ^ 8.

(** ** memory_subsystem_constants.h *)

Definition BYTES_PER_WORD : Z := 4.
Definition WORDS_PER_CACHE_LINE : nat := 16.
Definition BYTES_PER_CACHE_LINE : Z := 64.
Definition READ_ENABLE_MASK : Z := 0x1.
Definition WRITE_ENABLE_MASK : Z := 0x2.

(** [*status |= 0x1] and [*status &= ~(0x1)] on a [uint8_t]. *)
Definition status_set (status : Z) : Z := wrap8 (Z.lor status 0x1).
Definition status_clear (status : Z) : Z := wrap8 (Z.land status (Z.lnot 0x1)).

(** The test every caller applies to a status byte: [status & 0x1]. *)
Definition status_bit (status : Z) : bool := negb (Z.land status 0x1 =? 0).

(** A C condition [x & MASK] is true when the conjunction is not zero. *)
Definition test (x mask : Z) : bool := negb (Z.land x mask =? 0).

(** [for (i = 0; i < WORDS_PER_CACHE_LINE; i++) dst[i] = src[i];]
    [copy_words n i] runs the [n] iterations that start at index [i]. *)
Fixpoint copy_words (n i : nat) (src dst : list Z) : list Z :=
  match n with
  | O => dst
  | S n' => copy_words n' (S i) src (<[i := src !!! i]> dst)
  end.

Definition copy_line (src dst : list Z) : list Z :=
  copy_words WORDS_PER_CACHE_LINE 0 src dst.

(** * L1: direct-mapped, write-back, one word per access *)

Module L1.

Definition L1_NUM_CACHE_ENTRIES : Z := Z.shiftl 1 11.

Record L1_CACHE_ENTRY := {
  v_d_tag : Z;
  cache_line : list Z
}.

#[global] Instance L1_CACHE_ENTRY_inhabited : Inhabited L1_CACHE_ENTRY :=
  populate {| v_d_tag := 0; cache_line := [] |}.

Definition L1_VBIT_MASK : Z := wrap32 (Z.shiftl 0x1 31).
Definition L1_DIRTYBIT_MASK : Z := Z.shiftl 0x1 30.
Definition L1_ENTRY_TAG_MASK : Z := 0xffff.

Definition L1_ADDRESS_TAG_MASK : Z := wrap32 (Z.shiftl 0xffff 16).
Definition L1_ADDRESS_TAG_SHIFT : Z := 16.
Definition L1_ADDRESS_INDEX_MASK : Z := Z.shiftl 0x3ff 6.
Definition L1_ADDRESS_INDEX_SHIFT : Z := 6.
Definition L1_ADDRESS_WORD_OFFSET_MASK : Z := Z.shiftl 0xF 2.
Definition L1_ADDRESS_WORD_OFFSET_SHIFT : Z := 2.

(** The global [l1_cache] array: [L1_NUM_CACHE_ENTRIES] entries of 16 words. *)
Definition l1_wf (l1_cache : list L1_CACHE_ENTRY) : Prop :=
  length l1_cache = Z.to_nat L1_NUM_CACHE_ENTRIES /\
  Forall (fun e => length (cache_line e) = WORDS_PER_CACHE_LINE) l1_cache.

(** The fields packed into [v_d_tag], read the way the code reads them. *)
Definition valid (e : L1_CACHE_ENTRY) : bool := test (v_d_tag e) L1_VBIT_MASK.
Definition dirty (e : L1_CACHE_ENTRY) : bool := test (v_d_tag e) L1_DIRTYBIT_MASK.
Definition entry_tag (e : L1_CACHE_ENTRY) : Z := Z.land (v_d_tag e) L1_ENTRY_TAG_MASK.

(** [for (entry = 0; entry < L1_NUM_CACHE_ENTRIES; entry++)
       l1_cache[entry].v_d_tag = 0;] *)
Fixpoint l1_initialize_loop (n entry : nat) (l1_cache : list L1_CACHE_ENTRY)
  : list L1_CACHE_ENTRY :=
  match n with
  | O => l1_cache
  | S n' =>
      let e := l1_cache !!! entry in
      l1_initialize_loop n' (S entry)
        (<[entry := {| v_d_tag := 0; cache_line := cache_line e |}]> l1_cache)
  end.

Definition l1_initialize (l1_cache : list L1_CACHE_ENTRY) : list L1_CACHE_ENTRY :=
  l1_initialize_loop (Z.to_nat L1_NUM_CACHE_ENTRIES) 0 l1_cache.

Definition entry_index_of (address : Z) : Z :=
  Z.shiftr (Z.land address L1_ADDRESS_INDEX_MASK) L1_ADDRESS_INDEX_SHIFT.
Definition tag_of (address : Z) : Z :=
  Z.shiftr (Z.land address L1_ADDRESS_TAG_MASK) L1_ADDRESS_TAG_SHIFT.
Definition word_offset_of (address : Z) : Z :=
  Z.shiftr (Z.land address L1_ADDRESS_WORD_OFFSET_MASK) L1_ADDRESS_WORD_OFFSET_SHIFT.

(** The hit test of [l1_cache_access], on the fields. *)
Definition l1_hit (l1_cache : list L1_CACHE_ENTRY) (address : Z) : bool :=
  let e := l1_cache !!! Z.to_nat (entry_index_of address) in
  valid e && (entry_tag e =? tag_of address).

Record access_result := {
  a_cache : list L1_CACHE_ENTRY;
  a_read_data : Z;
  a_status : Z
}.

Definition l1_cache_access (l1_cache : list L1_CACHE_ENTRY)
    (address write_data control read_data status : Z) : access_result :=
  let entry_index := entry_index_of address in
  let tag := tag_of address in
  let word_offset := word_offset_of address in
  let e := l1_cache !!! Z.to_nat entry_index in
  if (Z.land (v_d_tag e) L1_VBIT_MASK =? 0)
     || negb (Z.land (v_d_tag e) L1_ENTRY_TAG_MASK =? tag)
  then {| a_cache := l1_cache; a_read_data := read_data;
          a_status := status_clear status |}
  else
    let status := status_set status in
    let read_data :=
      if test control READ_ENABLE_MASK
      then cache_line e !!! Z.to_nat word_offset
      else read_data in
    let l1_cache :=
      if test control WRITE_ENABLE_MASK
      then <[Z.to_nat entry_index :=
               {| v_d_tag := Z.lor (v_d_tag e) L1_DIRTYBIT_MASK;
                  cache_line := <[Z.to_nat word_offset := write_data]> (cache_line e) |}]>
             l1_cache
      else l1_cache in
    {| a_cache := l1_cache; a_read_data := read_data; a_status := status |}.

(** [v_d_tag = tag; v_d_tag &= ~L1_DIRTYBIT_MASK; v_d_tag |= L1_VBIT_MASK;] *)
Definition fill_status_word (tag : Z) : Z :=
  let v := tag in
  let v := Z.land v (wrap32 (Z.lnot L1_DIRTYBIT_MASK)) in
  Z.lor v L1_VBIT_MASK.

Record insert_result := {
  i_cache : list L1_CACHE_ENTRY;
  i_evicted_writeback_address : Z;
  i_evicted_writeback_data : list Z;
  i_status : Z
}.

Definition l1_insert_line (l1_cache : list L1_CACHE_ENTRY)
    (address : Z) (write_data : list Z)
    (evicted_writeback_address : Z) (evicted_writeback_data : list Z)
    (status : Z) : insert_result :=
  let entry_index := entry_index_of address in
  let tag := tag_of address in
  let e := l1_cache !!! Z.to_nat entry_index in
  let '(evicted_writeback_address, evicted_writeback_data, status) :=
    if test (v_d_tag e) L1_VBIT_MASK && test (v_d_tag e) L1_DIRTYBIT_MASK
    then (Z.lor (wrap32 (Z.shiftl (v_d_tag e) L1_ADDRESS_TAG_SHIFT))
                (wrap32 (Z.shiftl entry_index L1_ADDRESS_INDEX_SHIFT)),
          copy_line (cache_line e) evicted_writeback_data,
          status_set status)
    else (evicted_writeback_address, evicted_writeback_data, status_clear status) in
  let line := copy_line write_data (cache_line e) in
  {| i_cache :=
       <[Z.to_nat entry_index :=
           {| v_d_tag := fill_status_word tag; cache_line := line |}]> l1_cache;
     i_evicted_writeback_address := evicted_writeback_address;
     i_evicted_writeback_data := evicted_writeback_data;
     i_status := status |}.

(** The global array as the C runtime provides it: all zero. *)
Definition l1_power_on : list L1_CACHE_ENTRY :=
  replicate (Z.to_nat L1_NUM_CACHE_ENTRIES)
    {| v_d_tag := 0; cache_line := replicate WORDS_PER_CACHE_LINE 0 |}.

End L1.

(** * L2: 4-way set-associative, write-back, NRU replacement *)

Module L2.

Record L2_CACHE_ENTRY := {
  v_r_d_tag : Z;
  cache_line : list Z
}.

Definition L2_LINES_PER_SET : nat := 4.

Record L2_CACHE_SET := {
  lines : list L2_CACHE_ENTRY
}.

#[global] Instance L2_CACHE_ENTRY_inhabited : Inhabited L2_CACHE_ENTRY :=
  populate {| v_r_d_tag := 0; cache_line := [] |}.
#[global] Instance L2_CACHE_SET_inhabited : Inhabited L2_CACHE_SET :=
  populate {| lines := [] |}.

Definition L2_NUM_CACHE_SETS : Z := Z.shiftl 1 12.

Definition L2_VBIT_MASK : Z := wrap32 (Z.shiftl 1 31).
Definition L2_RBIT_MASK : Z := Z.shiftl 1 30.
Definition L2_DIRTYBIT_MASK : Z := Z.shiftl 1 29.
Definition L2_ENTRY_TAG_MASK : Z := 0x3fff.

Definition L2_ADDRESS_TAG_MASK : Z := wrap32 (Z.shiftl 0x3fff 18).
Definition L2_ADDRESS_TAG_SHIFT : Z := 18.
Definition L2_ADDRESS_INDEX_MASK : Z := Z.shiftl 0xfff 6.
Definition L2_ADDRESS_INDEX_SHIFT : Z := 6.

(** [NOT_FOUND] is [(~0x0)], stored in a [uint32_t]. *)
Definition NOT_FOUND : Z := wrap32 (Z.lnot 0x0).

(** The global [l2_cache] array: [L2_NUM_CACHE_SETS] sets of
    [L2_LINES_PER_SET] entries of 16 words. *)
Definition l2_set_wf (s : L2_CACHE_SET) : Prop :=
  length (lines s) = L2_LINES_PER_SET /\
  Forall (fun e => length (cache_line e) = WORDS_PER_CACHE_LINE) (lines s).

Definition l2_wf (l2_cache : list L2_CACHE_SET) : Prop :=
  length l2_cache = Z.to_nat L2_NUM_CACHE_SETS /\ Forall l2_set_wf l2_cache.

(** The positions the array has. *)
Definition in_array (l2_cache : list L2_CACHE_SET) (set line : nat) : Prop :=
  (set < length l2_cache)%nat /\ (line < length (lines (l2_cache !!! set)))%nat.

(** [l2_cache[set].lines[line]] read and written in place. *)
Definition entry_at (l2_cache : list L2_CACHE_SET) (set line : nat) : L2_CACHE_ENTRY :=
  lines (l2_cache !!! set) !!! line.

Definition set_entry (l2_cache : list L2_CACHE_SET) (set line : nat)
    (e : L2_CACHE_ENTRY) : list L2_CACHE_SET :=
  <[set := {| lines := <[line := e]> (lines (l2_cache !!! set)) |}]> l2_cache.

(** The fields packed into [v_r_d_tag], read the way the code reads them. *)
Definition valid (e : L2_CACHE_ENTRY) : bool := test (v_r_d_tag e) L2_VBIT_MASK.
Definition referenced (e : L2_CACHE_ENTRY) : bool := test (v_r_d_tag e) L2_RBIT_MASK.
Definition dirty (e : L2_CACHE_ENTRY) : bool := test (v_r_d_tag e) L2_DIRTYBIT_MASK.
Definition entry_tag (e : L2_CACHE_ENTRY) : Z := Z.land (v_r_d_tag e) L2_ENTRY_TAG_MASK.

(** [l2_initialize] and [l2_clear_r_bits] are the same loop nest
      [for (set = 0; set < L2_NUM_CACHE_SETS; set++)
         for (line = 0; line < L2_LINES_PER_SET; line++)
           l2_cache[set].lines[line].v_r_d_tag = f(v_r_d_tag);]
    around a different statement [f]; the line data is not touched. *)
Definition with_status_word (f : Z -> Z) (e : L2_CACHE_ENTRY) : L2_CACHE_ENTRY :=
  {| v_r_d_tag := f (v_r_d_tag e); cache_line := cache_line e |}.

Fixpoint for_lines (f : Z -> Z) (n line set : nat) (l2_cache : list L2_CACHE_SET)
  : list L2_CACHE_SET :=
  match n with
  | O => l2_cache
  | S n' =>
      for_lines f n' (S line) set
        (set_entry l2_cache set line
           (with_status_word f (entry_at l2_cache set line)))
  end.

Fixpoint for_sets (f : Z -> Z) (n set : nat) (l2_cache : list L2_CACHE_SET)
  : list L2_CACHE_SET :=
  match n with
  | O => l2_cache
  | S n' => for_sets f n' (S set) (for_lines f L2_LINES_PER_SET 0 set l2_cache)
  end.

(** [v_r_d_tag = 0] *)
Definition l2_initialize (l2_cache : list L2_CACHE_SET) : list L2_CACHE_SET :=
  for_sets (fun _ => 0) (Z.to_nat L2_NUM_CACHE_SETS) 0 l2_cache.

Definition set_index_of (address : Z) : Z :=
  Z.shiftr (Z.land address L2_ADDRESS_INDEX_MASK) L2_ADDRESS_INDEX_SHIFT.
Definition tag_of (address : Z) : Z :=
  Z.shiftr (Z.land address L2_ADDRESS_TAG_MASK) L2_ADDRESS_TAG_SHIFT.

(** The test of the search loop of [l2_cache_access] on line [line]. *)
Definition matches (s : L2_CACHE_SET) (tag : Z) (line : nat) : bool :=
  let v := v_r_d_tag (lines s !!! line) in
  test v L2_VBIT_MASK && (Z.land v L2_ENTRY_TAG_MASK =? tag).

(** The search loop of [l2_cache_access]: the first line of the set that
    is valid and carries [tag], or [-1]. *)
Fixpoint find_line (n line : nat) (s : L2_CACHE_SET) (tag : Z) : Z :=
  match n with
  | O => -1
  | S n' =>
      if matches s tag line
      then Z.of_nat line
      else find_line n' (S line) s tag
  end.

Record access_result := {
  a_cache : list L2_CACHE_SET;
  a_read_data : list Z;
  a_status : Z
}.

Definition l2_cache_access (l2_cache : list L2_CACHE_SET)
    (address : Z) (write_data : list Z) (control : Z)
    (read_data : list Z) (status : Z) : access_result :=
  let set_index := Z.to_nat (set_index_of address) in
  let tag := tag_of address in
  let line_index := find_line L2_LINES_PER_SET 0 (l2_cache !!! set_index) tag in
  if line_index =? -1
  then {| a_cache := l2_cache; a_read_data := read_data;
          a_status := status_clear status |}
  else
    let status := status_set status in
    let e := entry_at l2_cache set_index (Z.to_nat line_index) in
    let v := Z.lor (v_r_d_tag e) L2_RBIT_MASK in
    let read_data :=
      if test control READ_ENABLE_MASK
      then copy_line (cache_line e) read_data
      else read_data in
    let e' :=
      if test control WRITE_ENABLE_MASK
      then {| v_r_d_tag := Z.lor v L2_DIRTYBIT_MASK;
              cache_line := copy_line write_data (cache_line e) |}
      else {| v_r_d_tag := v; cache_line := cache_line e |} in
    {| a_cache := set_entry l2_cache set_index (Z.to_nat line_index) e';
       a_read_data := read_data; a_status := status |}.

(** What the search loop of [l2_insert_line] ends with: either it met an
    invalid entry and the function returns from inside the loop, or it ran
    through the set and leaves the three remembered indices. *)
Inductive scan_result :=
| Invalid_at (line : nat)
| Scanned (r0_d0_index r0_d1_index r1_d0_index : Z).

(** [if (r_index = NOT_FOUND) r_index = line;]: the condition assigns
    [NOT_FOUND] to the variable and tests the assigned value. *)
Definition remember (r_index : Z) (line : nat) : Z :=
  let r_index := NOT_FOUND in
  if negb (r_index =? 0) then Z.of_nat line else r_index.

Fixpoint scan (n line : nat) (s : L2_CACHE_SET)
    (r0_d0_index r0_d1_index r1_d0_index : Z) : scan_result :=
  match n with
  | O => Scanned r0_d0_index r0_d1_index r1_d0_index
  | S n' =>
      let v := v_r_d_tag (lines s !!! line) in
      if negb (test v L2_VBIT_MASK) then Invalid_at line
      else if negb (test v L2_RBIT_MASK) && negb (test v L2_DIRTYBIT_MASK) then
        scan n' (S line) s (remember r0_d0_index line) r0_d1_index r1_d0_index
      else if negb (test v L2_RBIT_MASK) && test v L2_DIRTYBIT_MASK then
        scan n' (S line) s r0_d0_index (remember r0_d1_index line) r1_d0_index
      else if test v L2_RBIT_MASK && negb (test v L2_DIRTYBIT_MASK) then
        scan n' (S line) s r0_d0_index r0_d1_index (remember r1_d0_index line)
      else
        scan n' (S line) s r0_d0_index r0_d1_index r1_d0_index
  end.

(** The three tiers the loop tells apart, as tests on [v_r_d_tag]. *)
Definition r0_d0 (v : Z) : bool :=
  negb (test v L2_RBIT_MASK) && negb (test v L2_DIRTYBIT_MASK).
Definition r0_d1 (v : Z) : bool :=
  negb (test v L2_RBIT_MASK) && test v L2_DIRTYBIT_MASK.
Definition r1_d0 (v : Z) : bool :=
  test v L2_RBIT_MASK && negb (test v L2_DIRTYBIT_MASK).

(** The place of a valid entry in the order of preference stated above
    [l2_insert_line]: 0 for [r = 0, d = 0] down to 3 for [r = 1, d = 1]. *)
Definition tier_rank (v : Z) : nat :=
  if r0_d0 v then 0 else if r0_d1 v then 1 else if r1_d0 v then 2 else 3.

(** What one remembered index holds after [n] iterations from [line]
    over valid entries: the loop overwrites it at every line of its tier. *)
Fixpoint last_where (tier : Z -> bool) (n line : nat) (s : L2_CACHE_SET)
    (r_index : Z) : Z :=
  match n with
  | O => r_index
  | S n' =>
      last_where tier n' (S line) s
        (if tier (v_r_d_tag (lines s !!! line)) then Z.of_nat line else r_index)
  end.

(** The choice made after the loop. *)
Definition choose (r0_d0_index r0_d1_index r1_d0_index : Z) : Z :=
  if negb (r0_d0_index =? NOT_FOUND) then r0_d0_index
  else if negb (r0_d1_index =? NOT_FOUND) then r0_d1_index
  else if negb (r1_d0_index =? NOT_FOUND) then r1_d0_index
  else 0.

(** The entry [l2_insert_line] overwrites in set [s]. *)
Definition victim (s : L2_CACHE_SET) : nat :=
  match scan L2_LINES_PER_SET 0 s NOT_FOUND NOT_FOUND NOT_FOUND with
  | Invalid_at line => line
  | Scanned r0_d0_index r0_d1_index r1_d0_index =>
      Z.to_nat (choose r0_d0_index r0_d1_index r1_d0_index)
  end.

(** The five statements both exits of [l2_insert_line] apply to the
    status word of the entry they fill. *)
Definition fill_status_word (v tag : Z) : Z :=
  let v := Z.lor v L2_VBIT_MASK in
  let v := Z.land v (wrap32 (Z.lnot L2_DIRTYBIT_MASK)) in
  let v := Z.land v (wrap32 (Z.lnot L2_RBIT_MASK)) in
  let v := Z.land v (wrap32 (Z.lnot L2_ENTRY_TAG_MASK)) in
  Z.lor v tag.

Record insert_result := {
  i_cache : list L2_CACHE_SET;
  i_evicted_writeback_address : Z;
  i_evicted_writeback_data : list Z;
  i_status : Z
}.

Definition l2_insert_line (l2_cache : list L2_CACHE_SET)
    (address : Z) (write_data : list Z)
    (evicted_writeback_address : Z) (evicted_writeback_data : list Z)
    (status : Z) : insert_result :=
  let set_index := Z.to_nat (set_index_of address) in
  let tag := tag_of address in
  match scan L2_LINES_PER_SET 0 (l2_cache !!! set_index)
             NOT_FOUND NOT_FOUND NOT_FOUND with
  | Invalid_at line =>
      let e := entry_at l2_cache set_index line in
      {| i_cache :=
           set_entry l2_cache set_index line
             {| v_r_d_tag := fill_status_word (v_r_d_tag e) tag;
                cache_line := copy_line write_data (cache_line e) |};
         i_evicted_writeback_address := evicted_writeback_address;
         i_evicted_writeback_data := evicted_writeback_data;
         i_status := status_clear status |}
  | Scanned r0_d0_index r0_d1_index r1_d0_index =>
      let line_index := Z.to_nat (choose r0_d0_index r0_d1_index r1_d0_index) in
      let e := entry_at l2_cache set_index line_index in
      let '(evicted_writeback_address, evicted_writeback_data, status) :=
        if test (v_r_d_tag e) L2_DIRTYBIT_MASK
        then (Z.lor (wrap32 (Z.shiftl (Z.land (v_r_d_tag e) L2_ENTRY_TAG_MASK)
                                      L2_ADDRESS_TAG_SHIFT))
                    (wrap32 (Z.shiftl (Z.of_nat set_index) L2_ADDRESS_INDEX_SHIFT)),
              copy_line (cache_line e) evicted_writeback_data,
              status_set status)
        else (evicted_writeback_address, evicted_writeback_data,
              status_clear status) in
      {| i_cache :=
           set_entry l2_cache set_index line_index
             {| v_r_d_tag := fill_status_word (v_r_d_tag e) tag;
                cache_line := copy_line write_data (cache_line e) |};
         i_evicted_writeback_address := evicted_writeback_address;
         i_evicted_writeback_data := evicted_writeback_data;
         i_status := status |}
  end.

(** [v_r_d_tag &= ~L2_RBIT_MASK] *)
Definition l2_clear_r_bits (l2_cache : list L2_CACHE_SET) : list L2_CACHE_SET :=
  for_sets (fun v => Z.land v (wrap32 (Z.lnot L2_RBIT_MASK)))
           (Z.to_nat L2_NUM_CACHE_SETS) 0 l2_cache.

(** An address is resident when the search loop of [l2_cache_access]
    finds it, that is, when an access to it hits. *)
Definition resident (l2_cache : list L2_CACHE_SET) (address : Z) : bool :=
  negb (find_line L2_LINES_PER_SET 0
          (l2_cache !!! Z.to_nat (set_index_of address)) (tag_of address) =? -1).

(** Within a set, at most one valid entry carries a given tag. *)
Definition unique_tags (l2_cache : list L2_CACHE_SET) : Prop :=
  forall set i j : nat,
    valid (entry_at l2_cache set i) = true ->
    valid (entry_at l2_cache set j) = true ->
    entry_tag (entry_at l2_cache set i) = entry_tag (entry_at l2_cache set j) ->
    i = j.

(** The states the cache goes through: [l2_initialize] on the global
    array, then any sequence of calls.  [may_insert] says which
    insertions the caller issues. *)
Inductive reachable (may_insert : list L2_CACHE_SET -> Z -> Prop)
  : list L2_CACHE_SET -> Prop :=
| reach_initialize l2_cache :
    l2_wf l2_cache ->
    reachable may_insert (l2_initialize l2_cache)
| reach_access l2_cache address write_data control read_data status :
    reachable may_insert l2_cache ->
    reachable may_insert
      (a_cache (l2_cache_access l2_cache address write_data control read_data status))
| reach_insert l2_cache address write_data ewa ewd status :
    reachable may_insert l2_cache ->
    may_insert l2_cache address ->
    reachable may_insert
      (i_cache (l2_insert_line l2_cache address write_data ewa ewd status))
| reach_clear_r_bits l2_cache :
    reachable may_insert l2_cache ->
    reachable may_insert (l2_clear_r_bits l2_cache).

(** Any insertion at all. *)
Definition any_insert (l2_cache : list L2_CACHE_SET) (address : Z) : Prop := True.

(** Only insertions of addresses that are not in the cache, the way a
    miss handler calls [l2_insert_line] after [l2_cache_access] missed. *)
Definition insert_after_miss (l2_cache : list L2_CACHE_SET) (address : Z) : Prop :=
  resident l2_cache address = false.

(** The global array as the C runtime provides it: all zero. *)
Definition l2_power_on : list L2_CACHE_SET :=
  replicate (Z.to_nat L2_NUM_CACHE_SETS)
    {| lines := replicate L2_LINES_PER_SET
                  {| v_r_d_tag := 0; cache_line := replicate WORDS_PER_CACHE_LINE 0 |} |}.

End L2.

(** * Concrete runs

    States built by calling the procedures on the zero-filled arrays, in
    the style of [test_l1.c] and [test_l2.c]. *)

Module Scenario.

Definition line_of (x : Z) : list Z := replicate WORDS_PER_CACHE_LINE x.

(** [(setnum << L2_ADDRESS_INDEX_SHIFT) + (tag << L2_ADDRESS_TAG_SHIFT)] *)
Definition l2_address (tag setnum : Z) : Z :=
  Z.shiftl setnum L2.L2_ADDRESS_INDEX_SHIFT + Z.shiftl tag L2.L2_ADDRESS_TAG_SHIFT.

Definition l2_insert (c : list L2.L2_CACHE_SET) (address : Z) (data : list Z)
  : list L2.L2_CACHE_SET :=
  L2.i_cache (L2.l2_insert_line c address data 0 (line_of 0) 0).

Definition l2_read (c : list L2.L2_CACHE_SET) (address : Z) : L2.access_result :=
  L2.l2_cache_access c address [] READ_ENABLE_MASK (line_of 0) 0.

Definition l2_start : list L2.L2_CACHE_SET := L2.l2_initialize L2.l2_power_on.

(** Set 0 filled with four lines, tags 0 to 3 in ways 0 to 3; all four
    are valid, unreferenced and clean. *)
Definition four_clean_lines : list L2.L2_CACHE_SET :=
  l2_insert (l2_insert (l2_insert (l2_insert l2_start
    (l2_address 0 0) (line_of 10)) (l2_address 1 0) (line_of 11))
    (l2_address 2 0) (line_of 12)) (l2_address 3 0) (line_of 13).

(** The same set after reading tags 0, 1 and 3: only way 2 is left
    unreferenced. *)
Definition way_2_unreferenced : list L2.L2_CACHE_SET :=
  L2.a_cache (l2_read (L2.a_cache (l2_read (L2.a_cache (l2_read four_clean_lines
    (l2_address 0 0))) (l2_address 1 0))) (l2_address 3 0)).

(** The same address inserted twice in a row. *)
Definition inserted_once : list L2.L2_CACHE_SET :=
  l2_insert l2_start (l2_address 5 0) (line_of 1).
Definition inserted_twice : list L2.L2_CACHE_SET :=
  l2_insert inserted_once (l2_address 5 0) (line_of 2).

(** An L1 line installed at address [0x12340040] and then written at
    word 2 of the line. *)
Definition l1_installed : list L1.L1_CACHE_ENTRY :=
  L1.i_cache (L1.l1_insert_line L1.l1_power_on 0x12340040 (line_of 7) 0 (line_of 0) 0).

End Scenario.

(** * Bit-level facts about the packed words *)

Section Bits.

Lemma test_pow2 (x k : Z) : 0 <= k -> test x (2 ^ k) = Z.testbit x k.
Proof.
  intros Hk. unfold test. destruct (Z.testbit x k) eqn:E; simpl.
  - apply negb_true_iff, Z.eqb_neq. intros H.
    assert (Hb : Z.testbit (Z.land x (2 ^ k)) k = false) by (rewrite H; apply Z.bits_0).
    rewrite Z.land_spec, E, Z.pow2_bits_true in Hb by lia. discriminate.
  - apply negb_false_iff, Z.eqb_eq, Z.bits_inj'. intros n Hn.
    rewrite Z.land_spec, Z.bits_0, Z.pow2_bits_eqb by lia.
    destruct (Z.eqb_spec k n); subst; rewrite ?E, ?andb_false_r; auto.
Qed.

Lemma testbit_high (x w i : Z) : 0 <= x < 2 ^ w -> 0 <= w <= i -> Z.testbit x i = false.
Proof.
  intros Hx Hw. rewrite <- (Z.mod_small x (2 ^ w)) by lia.
  apply Z.mod_pow2_bits_high. lia.
Qed.

Lemma field_of (a w s : Z) :
  0 <= w -> 0 <= s ->
  Z.shiftr (Z.land a (Z.shiftl (Z.ones w) s)) s = (a / 2 ^ s) mod 2 ^ w.
Proof.
  intros Hw Hs.
  rewrite <- Z.land_ones, <- Z.shiftr_div_pow2 by lia.
  rewrite Z.shiftr_land, Z.shiftr_shiftl_l, Z.sub_diag, Z.shiftl_0_r by lia.
  reflexivity.
Qed.

Lemma field_bound (a w s : Z) :
  0 <= w -> 0 <= s ->
  0 <= Z.shiftr (Z.land a (Z.shiftl (Z.ones w) s)) s < 2 ^ w.
Proof.
  intros Hw Hs. rewrite field_of by lia. apply Z.mod_pos_bound. lia.
Qed.

Lemma status_bit_set (status : Z) : status_bit (status_set status) = true.
Proof.
  unfold status_bit, status_set, wrap8.
  change (negb (Z.land (Z.lor status 1 mod 2 ^ 8) 1 =? 0))
    with (test (Z.lor status 1 mod 2 ^ 8) (2 ^ 0)).
  rewrite test_pow2, Z.testbit_mod_pow2, Z.lor_spec by lia.
  rewrite orb_true_r. reflexivity.
Qed.

Lemma status_bit_clear (status : Z) : status_bit (status_clear status) = false.
Proof.
  unfold status_bit, status_clear, wrap8.
  change (negb (Z.land (Z.land status (Z.lnot 1) mod 2 ^ 8) 1 =? 0))
    with (test (Z.land status (Z.lnot 1) mod 2 ^ 8) (2 ^ 0)).
  rewrite test_pow2, Z.testbit_mod_pow2, Z.land_spec by lia.
  rewrite andb_false_r. reflexivity.
Qed.

End Bits.

(** * The line-copy loop *)

Section Copy.

Lemma length_copy_words n i src dst : length (copy_words n i src dst) = length dst.
Proof.
  revert i dst. induction n as [|n IH]; intros i dst; simpl; [reflexivity|].
  rewrite IH. apply length_insert.
Qed.

Lemma length_copy_line src dst : length (copy_line src dst) = length dst.
Proof. apply length_copy_words. Qed.

Lemma lookup_copy_words n i src dst (j : nat) :
  copy_words n i src dst !! j =
  if decide ((i <= j < i + n)%nat /\ (j < length dst)%nat)
  then Some (src !!! j) else dst !! j.
Proof.
  revert i dst. induction n as [|n IH]; intros i dst; simpl.
  - case_decide; [lia | reflexivity].
  - rewrite IH, length_insert.
    destruct (decide (i = j)) as [->|Hne].
    + case_decide.
      * lia.
      * case_decide.
        -- apply list_lookup_insert_eq. lia.
        -- rewrite list_insert_ge by lia. reflexivity. 
    + rewrite list_lookup_insert_ne by assumption.
      repeat case_decide; try reflexivity; lia.
Qed.

Lemma take_copy_line src dst :
  length src = WORDS_PER_CACHE_LINE ->
  (WORDS_PER_CACHE_LINE <= length dst)%nat ->
  take WORDS_PER_CACHE_LINE (copy_line src dst) = src.
Proof.
  intros Hs Hd. apply list_eq. intros j.
  rewrite lookup_take. unfold copy_line. case_decide.
  - rewrite lookup_copy_words. case_decide; [|lia].
    symmetry. apply list_lookup_lookup_total_lt. lia.
  - symmetry. apply lookup_ge_None. lia.
Qed.

Lemma copy_line_exact src dst :
  length src = WORDS_PER_CACHE_LINE ->
  length dst = WORDS_PER_CACHE_LINE ->
  copy_line src dst = src.
Proof.
  intros Hs Hd. rewrite <- (take_copy_line src dst) at 2 by lia.
  symmetry. apply take_ge. rewrite length_copy_line. lia.
Qed.

End Copy.

(** Rewriting [Z.testbit] through the word operations, then deciding the
    comparisons on the bit index that are left. *)
Ltac bits_norm :=
  repeat first
    [ rewrite Z.land_spec | rewrite Z.lor_spec
    | rewrite Z.testbit_neg_r by lia
    | rewrite Z.testbit_mod_pow2 by lia
    | rewrite Z.shiftl_spec by lia
    | rewrite Z.shiftr_spec by lia
    | rewrite Z.lnot_spec by lia
    | rewrite Z.testbit_ones by lia
    | rewrite Z.pow2_bits_eqb by lia
    | rewrite Z.bits_0 ].

Ltac bits_cases :=
  repeat match goal with
    | |- context [?a <? ?b] => destruct (Z.ltb_spec a b)
    | |- context [?a <=? ?b] => destruct (Z.leb_spec a b)
    | |- context [?a =? ?b] => destruct (Z.eqb_spec a b)
    end;
  try lia; cbn [andb orb negb];
  rewrite ?andb_false_r, ?andb_true_r, ?orb_false_r, ?orb_true_r;
  try reflexivity.

(** * Facts about the L1 procedures *)

Section L1_facts.

Import L1.

Lemma l1_entry_index_bound address : 0 <= entry_index_of address < 1024.
Proof. apply (field_bound address 10 6); lia. Qed.

Lemma l1_tag_bound address : 0 <= tag_of address < 65536.
Proof. apply (field_bound address 16 16); lia. Qed.

Lemma l1_word_offset_bound address : 0 <= word_offset_of address < 16.
Proof. apply (field_bound address 4 2); lia. Qed.

Ltac l1_masks :=
  unfold valid, dirty, entry_tag, L1_VBIT_MASK, L1_DIRTYBIT_MASK,
    L1_ENTRY_TAG_MASK, L1_ADDRESS_TAG_SHIFT, L1_ADDRESS_INDEX_SHIFT, wrap32;
  simpl v_d_tag;
  change (Z.shiftl 1 31 mod 2 ^ 32) with (2 ^ 31);
  change (Z.shiftl 1 30) with (2 ^ 30);
  change 65535 with (Z.ones 16).

Lemma l1_fill_valid tag : test (fill_status_word tag) L1_VBIT_MASK = true.
Proof.
  unfold fill_status_word. l1_masks. rewrite test_pow2 by lia. bits_norm. bits_cases.
Qed.

Lemma l1_fill_clean tag : 0 <= tag < 65536 -> test (fill_status_word tag) L1_DIRTYBIT_MASK = false.
Proof.
  intros Ht. unfold fill_status_word. l1_masks. rewrite test_pow2 by lia.
  bits_norm. bits_cases.
Qed.

Lemma l1_fill_tag tag :
  0 <= tag < 65536 -> Z.land (fill_status_word tag) L1_ENTRY_TAG_MASK = tag.
Proof.
  intros Ht. unfold fill_status_word. l1_masks.
  apply Z.bits_inj'; intros i Hi. bits_norm. bits_cases.
  all: try (rewrite (testbit_high tag 16 i) by lia; reflexivity).
  all: try (destruct (Z.testbit tag i); reflexivity).
Qed.

Lemma l1_set_dirty_valid v :
  test (Z.lor v L1_DIRTYBIT_MASK) L1_VBIT_MASK = test v L1_VBIT_MASK.
Proof. l1_masks. rewrite !test_pow2 by lia. bits_norm. bits_cases. Qed.

Lemma l1_set_dirty_dirty v : test (Z.lor v L1_DIRTYBIT_MASK) L1_DIRTYBIT_MASK = true.
Proof. l1_masks. rewrite !test_pow2 by lia. bits_norm. bits_cases. Qed.

Lemma l1_set_dirty_tag v :
  Z.land (Z.lor v L1_DIRTYBIT_MASK) L1_ENTRY_TAG_MASK = Z.land v L1_ENTRY_TAG_MASK.
Proof.
  l1_masks. apply Z.bits_inj'; intros i Hi. bits_norm. bits_cases.
Qed.

(** Shifting the whole status word left by 16 in 32 bits keeps the tag
    and drops the valid and dirty bits. *)
Lemma l1_shift_status_word v :
  wrap32 (Z.shiftl v L1_ADDRESS_TAG_SHIFT)
  = Z.shiftl (Z.land v L1_ENTRY_TAG_MASK) L1_ADDRESS_TAG_SHIFT.
Proof.
  l1_masks. apply Z.bits_inj'; intros i Hi. bits_norm. bits_cases.
  all: try (apply Z.testbit_neg_r; lia).
Qed.

Lemma l1_shift_index address :
  wrap32 (Z.shiftl (entry_index_of address) L1_ADDRESS_INDEX_SHIFT)
  = Z.shiftl (entry_index_of address) L1_ADDRESS_INDEX_SHIFT.
Proof.
  pose proof (l1_entry_index_bound address) as Hb.
  unfold wrap32, L1_ADDRESS_INDEX_SHIFT. rewrite Z.shiftl_mul_pow2 by lia.
  apply Z.mod_small. lia.
Qed.

(** Tag and index put back together give the address of the line. *)
Lemma l1_line_address address :
  0 <= address < 2 ^ 32 ->
  Z.lor (Z.shiftl (tag_of address) L1_ADDRESS_TAG_SHIFT)
        (Z.shiftl (entry_index_of address) L1_ADDRESS_INDEX_SHIFT)
  = BYTES_PER_CACHE_LINE * (address / BYTES_PER_CACHE_LINE).
Proof.
  intros Ha.
  unfold tag_of, entry_index_of, L1_ADDRESS_TAG_MASK, L1_ADDRESS_INDEX_MASK,
    L1_ADDRESS_TAG_SHIFT, L1_ADDRESS_INDEX_SHIFT, BYTES_PER_CACHE_LINE, wrap32.
  change (Z.shiftl 65535 16 mod 2 ^ 32) with (Z.shiftl (Z.ones 16) 16).
  change 1023 with (Z.ones 10). change 64 with (2 ^ 6).
  rewrite Z.mul_comm, <- Z.shiftl_mul_pow2, <- Z.shiftr_div_pow2 by lia.
  apply Z.bits_inj'; intros i Hi.
  assert (Hc : i < 6 \/ 6 <= i < 16 \/ 16 <= i) by lia.
  destruct Hc as [Hc | [Hc | Hc]]; bits_norm; bits_cases.
  all: replace (i - 16 + 16) with i by lia; replace (i - 6 + 6) with i by lia.
  all: try (destruct (Z.testbit address i); reflexivity).
  all: try (rewrite (testbit_high address 32 i) by lia; reflexivity).
Qed.

End L1_facts.

(** ** The L1 procedures, case by case *)

Section L1_procedures.

Import L1.

Context (l1_cache : list L1_CACHE_ENTRY) (Hwf : l1_wf l1_cache).

Lemma l1_index_in_range address :
  (Z.to_nat (entry_index_of address) < length l1_cache)%nat.
Proof.
  destruct Hwf as [Hlen _]. rewrite Hlen.
  pose proof (l1_entry_index_bound address).
  change (Z.to_nat L1_NUM_CACHE_ENTRIES) with 2048%nat. lia.
Qed.

Lemma l1_line_length address :
  length (cache_line (l1_cache !!! Z.to_nat (entry_index_of address)))
  = WORDS_PER_CACHE_LINE.
Proof.
  destruct Hwf as [_ Hall].
  eapply (Forall_lookup_1 _ _ _ _ Hall).
  apply list_lookup_lookup_total_lt, l1_index_in_range.
Qed.

End L1_procedures.

Section L1_cases.

Import L1.

Lemma l1_access_miss c address write_data control read_data status :
  l1_hit c address = false ->
  l1_cache_access c address write_data control read_data status
  = {| a_cache := c; a_read_data := read_data; a_status := status_clear status |}.
Proof.
  unfold l1_hit, l1_cache_access, valid, entry_tag, test. cbv zeta. intros H.
  destruct (Z.land _ L1_VBIT_MASK =? 0); simpl in *; [reflexivity|].
  rewrite H. reflexivity.
Qed.

Lemma l1_access_hit c address write_data control read_data status :
  l1_hit c address = true ->
  let e := c !!! Z.to_nat (entry_index_of address) in
  l1_cache_access c address write_data control read_data status
  = {| a_cache :=
         if test control WRITE_ENABLE_MASK
         then <[Z.to_nat (entry_index_of address) :=
                  {| v_d_tag := Z.lor (v_d_tag e) L1_DIRTYBIT_MASK;
                     cache_line :=
                       <[Z.to_nat (word_offset_of address) := write_data]>
                         (cache_line e) |}]> c
         else c;
       a_read_data :=
         if test control READ_ENABLE_MASK
         then cache_line e !!! Z.to_nat (word_offset_of address)
         else read_data;
       a_status := status_set status |}.
Proof.
  unfold l1_hit, l1_cache_access, valid, entry_tag, test. cbv zeta. intros H.
  apply andb_true_iff in H as [Hv Ht]. apply negb_true_iff in Hv.
  rewrite Hv, Ht. reflexivity.
Qed.

Lemma l1_access_status c address write_data control read_data status :
  status_bit (a_status (l1_cache_access c address write_data control read_data status))
  = l1_hit c address.
Proof.
  destruct (l1_hit c address) eqn:H.
  - rewrite l1_access_hit by assumption. apply status_bit_set.
  - rewrite l1_access_miss by assumption. apply status_bit_clear.
Qed.

Lemma l1_insert_status c address write_data ewa ewd status :
  let e := c !!! Z.to_nat (entry_index_of address) in
  status_bit (i_status (l1_insert_line c address write_data ewa ewd status))
  = valid e && dirty e.
Proof.
  unfold l1_insert_line, valid, dirty. cbv zeta.
  destruct (test _ L1_VBIT_MASK && test _ L1_DIRTYBIT_MASK); simpl.
  - apply status_bit_set.
  - apply status_bit_clear.
Qed.

Lemma l1_insert_outputs c address write_data ewa ewd status :
  let e := c !!! Z.to_nat (entry_index_of address) in
  let r := l1_insert_line c address write_data ewa ewd status in
  (i_evicted_writeback_address r, i_evicted_writeback_data r)
  = if valid e && dirty e
    then (Z.lor (Z.shiftl (entry_tag e) L1_ADDRESS_TAG_SHIFT)
                (Z.shiftl (entry_index_of address) L1_ADDRESS_INDEX_SHIFT),
          copy_line (cache_line e) ewd)
    else (ewa, ewd).
Proof.
  unfold l1_insert_line, valid, dirty, entry_tag. cbv zeta.
  destruct (test _ L1_VBIT_MASK && test _ L1_DIRTYBIT_MASK); simpl; [|reflexivity].
  rewrite l1_shift_status_word, l1_shift_index. reflexivity.
Qed.

Lemma l1_insert_cache c address write_data ewa ewd status :
  i_cache (l1_insert_line c address write_data ewa ewd status)
  = <[Z.to_nat (entry_index_of address) :=
        {| v_d_tag := fill_status_word (tag_of address);
           cache_line :=
             copy_line write_data
               (cache_line (c !!! Z.to_nat (entry_index_of address))) |}]> c.
Proof.
  unfold l1_insert_line. cbv zeta.
  destruct (test _ L1_VBIT_MASK && test _ L1_DIRTYBIT_MASK); reflexivity.
Qed.

End L1_cases.

(** * Facts about the L2 procedures *)

Section L2_bits.

Import L2.

Lemma l2_set_index_bound address : 0 <= set_index_of address < 4096.
Proof. apply (field_bound address 12 6); lia. Qed.

Lemma l2_tag_bound address : 0 <= tag_of address < 16384.
Proof. apply (field_bound address 14 18); lia. Qed.

Ltac l2_masks :=
  unfold valid, referenced, dirty, entry_tag, r0_d0, r0_d1, r1_d0,
    fill_status_word, L2_VBIT_MASK, L2_RBIT_MASK, L2_DIRTYBIT_MASK,
    L2_ENTRY_TAG_MASK, wrap32;
  simpl v_r_d_tag;
  change (Z.shiftl 1 31 mod 2 ^ 32) with (2 ^ 31);
  change (Z.shiftl 1 30) with (2 ^ 30);
  change (Z.shiftl 1 29) with (2 ^ 29);
  change 16383 with (Z.ones 14);
  rewrite ?test_pow2 by lia.

Ltac l2_bits :=
  l2_masks; try (apply Z.bits_inj'; intros i Hi); bits_norm; bits_cases.

Lemma l2_fill_valid v tag : test (fill_status_word v tag) L2_VBIT_MASK = true.
Proof. l2_bits. Qed.

Lemma l2_fill_unreferenced v tag :
  0 <= tag < 16384 -> test (fill_status_word v tag) L2_RBIT_MASK = false.
Proof. intros Ht. l2_bits. apply (testbit_high tag 14); lia. Qed.

Lemma l2_fill_clean v tag :
  0 <= tag < 16384 -> test (fill_status_word v tag) L2_DIRTYBIT_MASK = false.
Proof. intros Ht. l2_bits. apply (testbit_high tag 14); lia. Qed.

Lemma l2_fill_tag v tag :
  0 <= tag < 16384 -> Z.land (fill_status_word v tag) L2_ENTRY_TAG_MASK = tag.
Proof.
  intros Ht. l2_bits.
  all: try (rewrite (testbit_high tag 14 i) by lia; reflexivity).
  all: try (destruct (Z.testbit tag i); reflexivity).
Qed.

Lemma l2_set_r_valid v : test (Z.lor v L2_RBIT_MASK) L2_VBIT_MASK = test v L2_VBIT_MASK.
Proof. l2_bits. Qed.

Lemma l2_set_r_referenced v : test (Z.lor v L2_RBIT_MASK) L2_RBIT_MASK = true.
Proof. l2_bits. Qed.

Lemma l2_set_r_tag v :
  Z.land (Z.lor v L2_RBIT_MASK) L2_ENTRY_TAG_MASK = Z.land v L2_ENTRY_TAG_MASK.
Proof. l2_bits. Qed.

Lemma l2_set_d_valid v :
  test (Z.lor v L2_DIRTYBIT_MASK) L2_VBIT_MASK = test v L2_VBIT_MASK.
Proof. l2_bits. Qed.

Lemma l2_set_d_referenced v :
  test (Z.lor v L2_DIRTYBIT_MASK) L2_RBIT_MASK = test v L2_RBIT_MASK.
Proof. l2_bits. Qed.

Lemma l2_set_d_dirty v : test (Z.lor v L2_DIRTYBIT_MASK) L2_DIRTYBIT_MASK = true.
Proof. l2_bits. Qed.

Lemma l2_set_d_tag v :
  Z.land (Z.lor v L2_DIRTYBIT_MASK) L2_ENTRY_TAG_MASK = Z.land v L2_ENTRY_TAG_MASK.
Proof. l2_bits. Qed.

Lemma l2_clear_r_valid v :
  test (Z.land v (wrap32 (Z.lnot L2_RBIT_MASK))) L2_VBIT_MASK = test v L2_VBIT_MASK.
Proof. l2_bits. Qed.

Lemma l2_clear_r_tag v :
  Z.land (Z.land v (wrap32 (Z.lnot L2_RBIT_MASK))) L2_ENTRY_TAG_MASK
  = Z.land v L2_ENTRY_TAG_MASK.
Proof. l2_bits. Qed.

Lemma l2_shift_tag v :
  wrap32 (Z.shiftl (Z.land v L2_ENTRY_TAG_MASK) L2_ADDRESS_TAG_SHIFT)
  = Z.shiftl (Z.land v L2_ENTRY_TAG_MASK) L2_ADDRESS_TAG_SHIFT.
Proof.
  unfold L2_ADDRESS_TAG_SHIFT. l2_masks. rewrite Z.land_ones by lia.
  pose proof (Z.mod_pos_bound v (2 ^ 14) ltac:(lia)).
  rewrite Z.shiftl_mul_pow2 by lia. apply Z.mod_small. lia.
Qed.

Lemma l2_shift_index address :
  wrap32 (Z.shiftl (Z.of_nat (Z.to_nat (set_index_of address))) L2_ADDRESS_INDEX_SHIFT)
  = Z.shiftl (set_index_of address) L2_ADDRESS_INDEX_SHIFT.
Proof.
  pose proof (l2_set_index_bound address) as Hb.
  rewrite Z2Nat.id by lia.
  unfold wrap32, L2_ADDRESS_INDEX_SHIFT. rewrite Z.shiftl_mul_pow2 by lia.
  apply Z.mod_small. lia.
Qed.

End L2_bits.

(** ** Reading and writing [l2_cache[set].lines[line]] *)

Section L2_array.

Import L2.

Implicit Types (c : list L2_CACHE_SET) (e : L2_CACHE_ENTRY).

Lemma lookup_total_outside {A} `{Inhabited A} (l : list A) (i : nat) :
  (length l <= i)%nat -> l !!! i = inhabitant.
Proof.
  intros Hi. rewrite list_lookup_total_alt, (lookup_ge_None_2 l i) by lia.
  reflexivity.
Qed.

Lemma length_set_entry c set line e : length (set_entry c set line e) = length c.
Proof. apply length_insert. Qed.

Lemma lines_set_entry c set line e set' :
  length (lines (set_entry c set line e !!! set')) = length (lines (c !!! set')).
Proof.
  unfold set_entry. rewrite list_lookup_total_insert.
  case_decide as H; [|reflexivity].
  destruct H as [-> _]. simpl. apply length_insert.
Qed.

Lemma entry_at_set_entry c set line e set' line' :
  entry_at (set_entry c set line e) set' line' =
  if decide (set = set' /\ line = line' /\ in_array c set line)
  then e else entry_at c set' line'.
Proof.
  unfold entry_at, set_entry, in_array.
  rewrite list_lookup_total_insert.
  case_decide as Hs.
  - destruct Hs as [-> Hs]. simpl. rewrite list_lookup_total_insert.
    repeat case_decide; try reflexivity; exfalso; intuition lia.
  - case_decide; [exfalso; intuition lia | reflexivity].
Qed.

Lemma entry_at_set_entry_eq c set line e :
  in_array c set line -> entry_at (set_entry c set line e) set line = e.
Proof.
  intros H. rewrite entry_at_set_entry. case_decide; [reflexivity|intuition].
Qed.

Lemma entry_at_set_entry_ne c set line e set' line' :
  set <> set' \/ line <> line' ->
  entry_at (set_entry c set line e) set' line' = entry_at c set' line'.
Proof.
  intros H. rewrite entry_at_set_entry. case_decide; [intuition|reflexivity].
Qed.

Lemma in_array_set_entry c set line e set' line' :
  in_array (set_entry c set line e) set' line' <-> in_array c set' line'.
Proof. unfold in_array. rewrite length_set_entry, lines_set_entry. tauto. Qed.

Lemma l2_wf_in_array c set line :
  l2_wf c ->
  in_array c set line <->
  (set < Z.to_nat L2_NUM_CACHE_SETS)%nat /\ (line < L2_LINES_PER_SET)%nat.
Proof.
  intros [Hlen Hall]. unfold in_array. rewrite Hlen.
  split; intros [Hs Hl]; split; try assumption.
  - destruct (Forall_lookup_total_1 _ c set Hall) as [Hn _]; lia.
  - destruct (Forall_lookup_total_1 _ c set Hall) as [Hn _]; lia.
Qed.

Lemma l2_wf_line_length c set line :
  l2_wf c -> in_array c set line ->
  length (cache_line (entry_at c set line)) = WORDS_PER_CACHE_LINE.
Proof.
  intros [Hlen Hall] [Hs Hl]. unfold entry_at.
  destruct (Forall_lookup_total_1 _ c set Hall) as [_ Hlines]; [lia|].
  apply (Forall_lookup_total_1 _ _ line Hlines). lia.
Qed.

Lemma entry_at_outside c set line :
  ~ in_array c set line -> entry_at c set line = inhabitant.
Proof.
  unfold in_array, entry_at. intros H.
  destruct (decide (set < length c)%nat) as [Hs|Hs].
  - apply lookup_total_outside. lia.
  - rewrite (lookup_total_outside c) by lia. reflexivity.
Qed.

Lemma valid_in_array c set line :
  valid (entry_at c set line) = true -> in_array c set line.
Proof.
  intros Hv. destruct (decide (in_array c set line)) as [H|H]; [assumption|].
  rewrite entry_at_outside in Hv by assumption. discriminate.
Qed.

Lemma set_entry_wf c set line e :
  l2_wf c -> length (cache_line e) = WORDS_PER_CACHE_LINE ->
  l2_wf (set_entry c set line e).
Proof.
  intros [Hlen Hall] He. split.
  - rewrite length_set_entry. assumption.
  - unfold set_entry.
    destruct (decide (set < length c)%nat) as [Hs|Hs].
    + apply Forall_insert; [assumption|].
      destruct (Forall_lookup_total_1 _ c set Hall) as [Hn Hlines]; [lia|].
      split; simpl.
      * rewrite length_insert. assumption.
      * destruct (decide (line < length (lines (c !!! set)))%nat).
        -- apply Forall_insert; assumption.
        -- rewrite list_insert_ge by lia. assumption.
    + rewrite list_insert_ge by lia. assumption.
Qed.

End L2_array.

(** ** The loop nest of [l2_initialize] and [l2_clear_r_bits] *)

Section L2_loops.

Import L2.

Implicit Types (c : list L2_CACHE_SET) (f : Z -> Z).

Lemma for_lines_in_array f n line set c set' line' :
  in_array (for_lines f n line set c) set' line' <-> in_array c set' line'.
Proof.
  revert line c. induction n as [|n IH]; intros line c; simpl; [tauto|].
  rewrite IH. apply in_array_set_entry.
Qed.

Lemma for_lines_entry f n line set c set' line' :
  in_array c set' line' ->
  entry_at (for_lines f n line set c) set' line' =
  if decide (set = set' /\ (line <= line' < line + n)%nat)
  then with_status_word f (entry_at c set' line')
  else entry_at c set' line'.
Proof.
  revert line c. induction n as [|n IH]; intros line c Hin; simpl.
  - case_decide; [lia | reflexivity].
  - rewrite IH by (apply in_array_set_entry; assumption).
    rewrite !entry_at_set_entry.
    destruct (decide (set = set')) as [->|Hs];
      [destruct (decide (line = line')) as [->|Hl]|];
      repeat case_decide; try reflexivity; exfalso; try tauto; try lia.
Qed.

Lemma for_lines_wf f n line set c : l2_wf c -> l2_wf (for_lines f n line set c).
Proof.
  revert line c. induction n as [|n IH]; intros line c Hwf; simpl; [assumption|].
  apply IH. destruct (decide (in_array c set line)) as [Hin|Hout].
  - apply set_entry_wf; [assumption|]. simpl. apply l2_wf_line_length; assumption.
  - unfold set_entry. unfold in_array in Hout.
    destruct (decide (set < length c)%nat) as [Hs|Hs].
    + assert (Hl : (length (lines (c !!! set)) <= line)%nat) by lia.
      rewrite (list_insert_ge (lines (c !!! set))) by assumption.
      rewrite list_insert_id; [assumption|].
      rewrite (list_lookup_lookup_total_lt c set) by assumption.
      destruct (c !!! set). reflexivity.
    + rewrite list_insert_ge by lia. assumption.
Qed.

Lemma for_sets_in_array f n set c set' line' :
  in_array (for_sets f n set c) set' line' <-> in_array c set' line'.
Proof.
  revert set c. induction n as [|n IH]; intros set c; cbn [for_sets]; [tauto|].
  rewrite IH. apply for_lines_in_array.
Qed.

Lemma for_sets_entry f n set c set' line' :
  in_array c set' line' ->
  entry_at (for_sets f n set c) set' line' =
  if decide ((set <= set' < set + n)%nat /\ (line' < L2_LINES_PER_SET)%nat)
  then with_status_word f (entry_at c set' line')
  else entry_at c set' line'.
Proof.
  revert set c. induction n as [|n IH]; intros set c Hin; cbn [for_sets].
  - case_decide; [lia | reflexivity].
  - rewrite IH by (apply for_lines_in_array; assumption).
    rewrite !for_lines_entry by assumption.
    destruct (decide (set = set')) as [->|Hs];
      repeat case_decide; try reflexivity; exfalso; try tauto; try lia.
Qed.

Lemma for_sets_wf f n set c : l2_wf c -> l2_wf (for_sets f n set c).
Proof.
  revert set c. induction n as [|n IH]; intros set c Hwf; cbn [for_sets];
    [assumption|].
  apply IH, for_lines_wf, Hwf.
Qed.

(** On the whole array the loop nest applies [f] to every status word. *)
Lemma for_sets_all f c set line :
  l2_wf c -> in_array c set line ->
  entry_at (for_sets f (Z.to_nat L2_NUM_CACHE_SETS) 0 c) set line
  = with_status_word f (entry_at c set line).
Proof.
  intros Hwf Hin. rewrite for_sets_entry by assumption.
  case_decide as H; [reflexivity|].
  exfalso. apply H. pose proof (proj1 (l2_wf_in_array c set line Hwf) Hin).
  intuition lia.
Qed.

(** Whatever its bounds, the loop nest leaves in an entry either the old
    status word or [f] of it, and never touches the line data. *)
Lemma for_sets_status_word f n set c set' line' :
  v_r_d_tag (entry_at (for_sets f n set c) set' line')
    = v_r_d_tag (entry_at c set' line')
  \/ v_r_d_tag (entry_at (for_sets f n set c) set' line')
    = f (v_r_d_tag (entry_at c set' line')).
Proof.
  destruct (decide (in_array c set' line')) as [Hin|Hout].
  - rewrite for_sets_entry by assumption. case_decide; [right|left]; reflexivity.
  - left. rewrite !entry_at_outside; [reflexivity|assumption|].
    rewrite for_sets_in_array. assumption.
Qed.

Lemma l2_initialize_wf c : l2_wf c -> l2_wf (l2_initialize c).
Proof. apply for_sets_wf. Qed.

Lemma l2_clear_r_bits_wf c : l2_wf c -> l2_wf (l2_clear_r_bits c).
Proof. apply for_sets_wf. Qed.

Lemma l2_initialize_invalid c set line :
  l2_wf c -> valid (entry_at (l2_initialize c) set line) = false.
Proof.
  intros Hwf. destruct (decide (in_array c set line)) as [Hin|Hout].
  - unfold l2_initialize. rewrite for_sets_all by assumption. reflexivity.
  - rewrite entry_at_outside; [reflexivity|].
    unfold l2_initialize. rewrite for_sets_in_array. assumption.
Qed.

Lemma l2_clear_r_bits_valid c set line :
  valid (entry_at (l2_clear_r_bits c) set line) = valid (entry_at c set line).
Proof.
  unfold l2_clear_r_bits, valid.
  destruct (for_sets_status_word (fun v => Z.land v (wrap32 (Z.lnot L2_RBIT_MASK)))
              (Z.to_nat L2_NUM_CACHE_SETS) 0 c set line) as [-> | ->];
    [reflexivity | apply l2_clear_r_valid].
Qed.

Lemma l2_clear_r_bits_tag c set line :
  entry_tag (entry_at (l2_clear_r_bits c) set line) = entry_tag (entry_at c set line).
Proof.
  unfold l2_clear_r_bits, entry_tag.
  destruct (for_sets_status_word (fun v => Z.land v (wrap32 (Z.lnot L2_RBIT_MASK)))
              (Z.to_nat L2_NUM_CACHE_SETS) 0 c set line) as [-> | ->];
    [reflexivity | apply l2_clear_r_tag].
Qed.

End L2_loops.

(** ** The two search loops *)

Section L2_search.

Import L2.

Implicit Types (s : L2_CACHE_SET) (c : list L2_CACHE_SET).

Lemma matches_fields s tag line :
  matches s tag line
  = valid (lines s !!! line) && (entry_tag (lines s !!! line) =? tag).
Proof. reflexivity. Qed.

(** [find_line] returns the first matching line of its range, or [-1]
    when the range holds none. *)
Lemma find_line_spec n line s tag :
  (find_line n line s tag = -1 /\
   forall j, (line <= j < line + n)%nat -> matches s tag j = false)
  \/
  (exists j, find_line n line s tag = Z.of_nat j /\
     (line <= j < line + n)%nat /\ matches s tag j = true /\
     forall j', (line <= j' < j)%nat -> matches s tag j' = false).
Proof.
  revert line. induction n as [|n IH]; intros line; simpl.
  - left. split; [reflexivity | intros j Hj; lia].
  - destruct (matches s tag line) eqn:Hm.
    + right. exists line. split_and!; try lia; try assumption.
    + destruct (IH (S line)) as [[Hnone Hall] | (j & Hj & Hrange & Hmj & Hfirst)].
      * left. split; [assumption|]. intros j Hj.
        destruct (decide (j = line)) as [->|Hne]; [assumption|].
        apply Hall. lia.
      * right. exists j. split_and!; try lia; try assumption.
        intros j' Hj'.
        destruct (decide (j' = line)) as [->|Hne]; [assumption|].
        apply Hfirst. lia.
Qed.

Lemma find_line_miss n line s tag :
  find_line n line s tag = -1 <->
  forall j, (line <= j < line + n)%nat -> matches s tag j = false.
Proof.
  destruct (find_line_spec n line s tag)
    as [[Hnone Hall] | (j & Hj & Hrange & Hmj & Hfirst)].
  - tauto.
  - split.
    + intros H. lia.
    + intros H. rewrite H in Hmj by lia. discriminate.
Qed.

(** [if (r_index = NOT_FOUND) r_index = line;] always stores [line]. *)
Lemma remember_line r_index line : remember r_index line = Z.of_nat line.
Proof. reflexivity. Qed.

(** The loop of [l2_insert_line] stops at the first invalid entry of its
    range; when the range has none, each remembered index holds what
    [last_where] computes for its tier. *)
Lemma scan_spec n line s x y z :
  (exists k, scan n line s x y z = Invalid_at k /\
     (line <= k < line + n)%nat /\ valid (lines s !!! k) = false /\
     forall j, (line <= j < k)%nat -> valid (lines s !!! j) = true)
  \/
  (scan n line s x y z
     = Scanned (last_where r0_d0 n line s x) (last_where r0_d1 n line s y)
               (last_where r1_d0 n line s z) /\
   forall j, (line <= j < line + n)%nat -> valid (lines s !!! j) = true).
Proof.
  revert line x y z. induction n as [|n IH]; intros line x y z; simpl.
  - right. split; [reflexivity | intros j Hj; lia].
  - unfold r0_d0, r0_d1, r1_d0.
    destruct (test (v_r_d_tag (lines s !!! line)) L2_VBIT_MASK) eqn:Hv; simpl.
    + assert (Hstep : forall x' y' z',
        (exists k, scan n (S line) s x' y' z' = Invalid_at k /\
           (line <= k < line + S n)%nat /\ valid (lines s !!! k) = false /\
           forall j, (line <= j < k)%nat -> valid (lines s !!! j) = true)
        \/
        (scan n (S line) s x' y' z'
           = Scanned (last_where r0_d0 n (S line) s x')
                     (last_where r0_d1 n (S line) s y')
                     (last_where r1_d0 n (S line) s z') /\
         forall j, (line <= j < line + S n)%nat -> valid (lines s !!! j) = true)).
      { intros x' y' z'.
        destruct (IH (S line) x' y' z') as [(k & Hk & Hr & Hkv & Hbefore) | [Hs Hall]].
        - left. exists k. split_and!; try lia; try assumption.
          intros j Hj. destruct (decide (j = line)) as [->|Hne]; [exact Hv|].
          apply Hbefore. lia.
        - right. split; [assumption|].
          intros j Hj. destruct (decide (j = line)) as [->|Hne]; [exact Hv|].
          apply Hall. lia. }
      destruct (test (v_r_d_tag (lines s !!! line)) L2_RBIT_MASK),
               (test (v_r_d_tag (lines s !!! line)) L2_DIRTYBIT_MASK);
        simpl; rewrite ?remember_line; apply Hstep.
    + left. exists line. split_and!; try lia; try assumption; reflexivity.
Qed.

(** [last_where] is its initial value when the range has no entry of the
    tier, and otherwise the last line of the tier in the range. *)
Lemma last_where_spec tier n line s x :
  (last_where tier n line s x = x /\
   forall j, (line <= j < line + n)%nat ->
     tier (v_r_d_tag (lines s !!! j)) = false)
  \/
  (exists j, last_where tier n line s x = Z.of_nat j /\
     (line <= j < line + n)%nat /\
     tier (v_r_d_tag (lines s !!! j)) = true /\
     forall j', (j < j' < line + n)%nat ->
       tier (v_r_d_tag (lines s !!! j')) = false).
Proof.
  revert line x. induction n as [|n IH]; intros line x; simpl.
  - left. split; [reflexivity | intros j Hj; lia].
  - destruct (tier (v_r_d_tag (lines s !!! line))) eqn:Ht.
    + right.
      destruct (IH (S line) (Z.of_nat line))
        as [[Heq Hnone] | (j & Hj & Hr & Htj & Hafter)].
      * exists line. split_and!; try lia; try assumption.
        intros j' Hj'. apply Hnone. lia.
      * exists j. split_and!; try lia; try assumption.
        intros j' Hj'. apply Hafter. lia.
    + destruct (IH (S line) x)
        as [[Heq Hnone] | (j & Hj & Hr & Htj & Hafter)].
      * left. split; [assumption|]. intros j Hj.
        destruct (decide (j = line)) as [->|Hne]; [assumption|].
        apply Hnone. lia.
      * right. exists j. split_and!; try lia; try assumption.
        intros j' Hj'. apply Hafter. lia.
Qed.

(** A remembered index is [NOT_FOUND] or a line of the set. *)
Lemma last_where_range tier s :
  last_where tier L2_LINES_PER_SET 0 s NOT_FOUND = NOT_FOUND \/
  exists j, last_where tier L2_LINES_PER_SET 0 s NOT_FOUND = Z.of_nat j /\
            (j < L2_LINES_PER_SET)%nat.
Proof.
  destruct (last_where_spec tier L2_LINES_PER_SET 0 s NOT_FOUND)
    as [[Heq _] | (j & Hj & Hr & _)].
  - left. assumption.
  - right. exists j. split; [assumption | lia].
Qed.

Lemma line_is_found (j : nat) :
  (j < L2_LINES_PER_SET)%nat -> (Z.of_nat j =? NOT_FOUND) = false.
Proof.
  intros Hj. apply Z.eqb_neq. unfold L2_LINES_PER_SET in Hj.
  change NOT_FOUND with 4294967295. lia.
Qed.

(** After a full scan the chosen line is a line of the set. *)
Lemma choose_range s :
  (Z.to_nat (choose (last_where r0_d0 L2_LINES_PER_SET 0 s NOT_FOUND)
                    (last_where r0_d1 L2_LINES_PER_SET 0 s NOT_FOUND)
                    (last_where r1_d0 L2_LINES_PER_SET 0 s NOT_FOUND))
   < L2_LINES_PER_SET)%nat.
Proof.
  unfold choose.
  destruct (last_where_range r0_d0 s) as [-> | (j & -> & Hj)];
    [| rewrite line_is_found by assumption; simpl; lia].
  destruct (last_where_range r0_d1 s) as [-> | (j & -> & Hj)];
    [| rewrite line_is_found by assumption; simpl; lia].
  destruct (last_where_range r1_d0 s) as [-> | (j & -> & Hj)];
    [| rewrite line_is_found by assumption; simpl; lia].
  simpl. unfold L2_LINES_PER_SET. lia.
Qed.

(** The entry [l2_insert_line] overwrites is the first invalid one, or,
    in a full set, a valid one. *)
Lemma victim_spec s :
  (valid (lines s !!! victim s) = false /\
   (victim s < L2_LINES_PER_SET)%nat /\
   (forall j, (j < victim s)%nat -> valid (lines s !!! j) = true) /\
   exists k, scan L2_LINES_PER_SET 0 s NOT_FOUND NOT_FOUND NOT_FOUND = Invalid_at k)
  \/
  ((forall j, (j < L2_LINES_PER_SET)%nat -> valid (lines s !!! j) = true) /\
   (victim s < L2_LINES_PER_SET)%nat /\
   scan L2_LINES_PER_SET 0 s NOT_FOUND NOT_FOUND NOT_FOUND
     = Scanned (last_where r0_d0 L2_LINES_PER_SET 0 s NOT_FOUND)
               (last_where r0_d1 L2_LINES_PER_SET 0 s NOT_FOUND)
               (last_where r1_d0 L2_LINES_PER_SET 0 s NOT_FOUND)).
Proof.
  unfold victim.
  destruct (scan_spec L2_LINES_PER_SET 0 s NOT_FOUND NOT_FOUND NOT_FOUND)
    as [(k & Hk & Hr & Hkv & Hbefore) | [Hs Hall]].
  - left. rewrite Hk. split_and!; try assumption; try lia.
    + intros j Hj. apply Hbefore. lia.
    + exists k. reflexivity.
  - right. rewrite Hs. split_and!; [| apply choose_range | reflexivity].
    intros j Hj. apply Hall. lia.
Qed.

Lemma victim_range s : (victim s < L2_LINES_PER_SET)%nat.
Proof. destruct (victim_spec s) as [(_ & H & _) | (_ & H & _)]; exact H. Qed.

End L2_search.

(** ** [l2_cache_access] and [l2_insert_line], case by case *)

Section L2_procedures.

Import L2.

Implicit Types (c : list L2_CACHE_SET).

Lemma l2_set_in_range c address :
  l2_wf c -> (Z.to_nat (set_index_of address) < Z.to_nat L2_NUM_CACHE_SETS)%nat.
Proof.
  intros _. pose proof (l2_set_index_bound address).
  change (Z.to_nat L2_NUM_CACHE_SETS) with 4096%nat. lia.
Qed.

Lemma l2_access_miss c address write_data control read_data status :
  resident c address = false ->
  l2_cache_access c address write_data control read_data status
  = {| a_cache := c; a_read_data := read_data; a_status := status_clear status |}.
Proof.
  unfold resident, l2_cache_access. cbv zeta. intros H.
  apply negb_false_iff in H. rewrite H. reflexivity.
Qed.

(** The entry a hit leaves in the matched line. *)
Lemma l2_access_hit c address write_data control read_data status :
  resident c address = true ->
  exists j,
    let set := Z.to_nat (set_index_of address) in
    let e := entry_at c set j in
    (j < L2_LINES_PER_SET)%nat /\
    matches (c !!! set) (tag_of address) j = true /\
    (forall j', (j' < j)%nat -> matches (c !!! set) (tag_of address) j' = false) /\
    l2_cache_access c address write_data control read_data status
    = {| a_cache :=
           set_entry c set j
             (if test control WRITE_ENABLE_MASK
              then {| v_r_d_tag :=
                        Z.lor (Z.lor (v_r_d_tag e) L2_RBIT_MASK) L2_DIRTYBIT_MASK;
                      cache_line := copy_line write_data (cache_line e) |}
              else {| v_r_d_tag := Z.lor (v_r_d_tag e) L2_RBIT_MASK;
                      cache_line := cache_line e |});
         a_read_data :=
           if test control READ_ENABLE_MASK
           then copy_line (cache_line e) read_data
           else read_data;
         a_status := status_set status |}.
Proof.
  unfold resident, l2_cache_access. cbv zeta. intros H.
  apply negb_true_iff in H.
  destruct (find_line_spec L2_LINES_PER_SET 0
              (c !!! Z.to_nat (set_index_of address)) (tag_of address))
    as [[Hnone _] | (j & Hj & Hrange & Hmj & Hfirst)].
  - rewrite Hnone in H. discriminate.
  - exists j. split_and!; try lia; try assumption.
    + intros j' Hj'. apply Hfirst. lia.
    + rewrite Hj in *. rewrite H, Nat2Z.id. reflexivity.
Qed.

Lemma l2_access_status c address write_data control read_data status :
  status_bit (a_status (l2_cache_access c address write_data control read_data status))
  = resident c address.
Proof.
  destruct (resident c address) eqn:H.
  - destruct (l2_access_hit c address write_data control read_data status H)
      as (j & _ & _ & _ & ->).
    apply status_bit_set.
  - rewrite l2_access_miss by assumption. apply status_bit_clear.
Qed.

Lemma matches_in_array c set tag j :
  matches (c !!! set) tag j = true -> in_array c set j.
Proof.
  rewrite matches_fields. intros H. apply andb_true_iff in H as [Hv _].
  apply valid_in_array. exact Hv.
Qed.

(** An access changes neither the valid bit nor the tag of any entry. *)
Lemma l2_access_valid_tag c address write_data control read_data status set line :
  let c' := a_cache (l2_cache_access c address write_data control read_data status) in
  valid (entry_at c' set line) = valid (entry_at c set line) /\
  entry_tag (entry_at c' set line) = entry_tag (entry_at c set line).
Proof.
  cbv zeta. destruct (resident c address) eqn:H.
  - destruct (l2_access_hit c address write_data control read_data status H)
      as (j & _ & _ & _ & ->). simpl.
    rewrite entry_at_set_entry. case_decide as Hpos; [|tauto].
    destruct Hpos as (<- & <- & _). unfold valid, entry_tag.
    destruct (test control WRITE_ENABLE_MASK); simpl.
    + rewrite l2_set_d_valid, l2_set_r_valid, l2_set_d_tag, l2_set_r_tag. tauto.
    + rewrite l2_set_r_valid, l2_set_r_tag. tauto.
  - rewrite l2_access_miss by assumption. tauto.
Qed.

Lemma l2_access_wf c address write_data control read_data status :
  l2_wf c ->
  l2_wf (a_cache (l2_cache_access c address write_data control read_data status)).
Proof.
  intros Hwf. destruct (resident c address) eqn:H.
  - destruct (l2_access_hit c address write_data control read_data status H)
      as (j & _ & Hm & _ & ->). simpl.
    apply matches_in_array in Hm.
    apply set_entry_wf; [assumption|].
    destruct (test control WRITE_ENABLE_MASK); cbn [cache_line];
      rewrite ?length_copy_line; apply l2_wf_line_length; assumption.
  - rewrite l2_access_miss by assumption. assumption.
Qed.

(** [l2_insert_line] overwrites the entry [victim] names. *)
Lemma l2_insert_cache c address write_data ewa ewd status :
  let set := Z.to_nat (set_index_of address) in
  let e := entry_at c set (victim (c !!! set)) in
  i_cache (l2_insert_line c address write_data ewa ewd status)
  = set_entry c set (victim (c !!! set))
      {| v_r_d_tag := fill_status_word (v_r_d_tag e) (tag_of address);
         cache_line := copy_line write_data (cache_line e) |}.
Proof.
  unfold l2_insert_line, victim. cbv zeta.
  destruct (scan _ _ _ _ _ _) as [k | x y z]; [reflexivity|].
  destruct (test _ L2_DIRTYBIT_MASK); reflexivity.
Qed.

Lemma l2_insert_status c address write_data ewa ewd status :
  let set := Z.to_nat (set_index_of address) in
  let e := entry_at c set (victim (c !!! set)) in
  status_bit (i_status (l2_insert_line c address write_data ewa ewd status))
  = valid e && dirty e.
Proof.
  cbv zeta. unfold entry_at.
  destruct (victim_spec (c !!! Z.to_nat (set_index_of address)))
    as [(Hv & _ & _ & k & Hk) | (Hall & Hr & Hs)].
  - rewrite Hv. unfold l2_insert_line. cbv zeta. rewrite Hk. simpl.
    apply status_bit_clear.
  - rewrite (Hall _ Hr). unfold l2_insert_line, victim, dirty, entry_at.
    cbv zeta. rewrite Hs.
    destruct (test _ L2_DIRTYBIT_MASK); simpl;
      [apply status_bit_set | apply status_bit_clear].
Qed.

Lemma l2_insert_outputs c address write_data ewa ewd status :
  let set := Z.to_nat (set_index_of address) in
  let e := entry_at c set (victim (c !!! set)) in
  let r := l2_insert_line c address write_data ewa ewd status in
  (i_evicted_writeback_address r, i_evicted_writeback_data r)
  = if valid e && dirty e
    then (Z.lor (Z.shiftl (entry_tag e) L2_ADDRESS_TAG_SHIFT)
                (Z.shiftl (set_index_of address) L2_ADDRESS_INDEX_SHIFT),
          copy_line (cache_line e) ewd)
    else (ewa, ewd).
Proof.
  cbv zeta. unfold entry_at.
  destruct (victim_spec (c !!! Z.to_nat (set_index_of address)))
    as [(Hv & _ & _ & k & Hk) | (Hall & Hr & Hs)].
  - rewrite Hv. unfold l2_insert_line. cbv zeta. rewrite Hk. reflexivity.
  - rewrite (Hall _ Hr). unfold l2_insert_line, victim, dirty, entry_tag, entry_at.
    cbv zeta. rewrite Hs.
    destruct (test _ L2_DIRTYBIT_MASK); simpl; [|reflexivity].
    rewrite l2_shift_tag, l2_shift_index. reflexivity.
Qed.

Lemma l2_victim_in_array c address :
  l2_wf c ->
  in_array c (Z.to_nat (set_index_of address))
           (victim (c !!! Z.to_nat (set_index_of address))).
Proof.
  intros Hwf. apply l2_wf_in_array; [assumption|]. split.
  - apply (l2_set_in_range c), Hwf.
  - apply victim_range.
Qed.

Lemma l2_insert_wf c address write_data ewa ewd status :
  l2_wf c -> l2_wf (i_cache (l2_insert_line c address write_data ewa ewd status)).
Proof.
  intros Hwf. rewrite l2_insert_cache.
  apply set_entry_wf; [assumption|]. cbn [cache_line]. rewrite length_copy_line.
  apply l2_wf_line_length; [assumption|]. apply l2_victim_in_array, Hwf.
Qed.

(** After an insertion the victim holds the new tag, valid, clean and
    unreferenced, and every other entry is as before. *)
Lemma l2_insert_entry c address write_data ewa ewd status :
  l2_wf c ->
  let set := Z.to_nat (set_index_of address) in
  let e' := entry_at (i_cache (l2_insert_line c address write_data ewa ewd status))
              set (victim (c !!! set)) in
  valid e' = true /\ referenced e' = false /\ dirty e' = false /\
  entry_tag e' = tag_of address /\
  cache_line e' = copy_line write_data (cache_line (entry_at c set (victim (c !!! set)))).
Proof.
  intros Hwf. cbv zeta. rewrite l2_insert_cache.
  rewrite entry_at_set_entry_eq by (apply l2_victim_in_array, Hwf).
  pose proof (l2_tag_bound address).
  unfold valid, referenced, dirty, entry_tag. simpl.
  rewrite l2_fill_valid, l2_fill_unreferenced, l2_fill_clean, l2_fill_tag by lia.
  tauto.
Qed.

Lemma l2_insert_other c address write_data ewa ewd status set line :
  set <> Z.to_nat (set_index_of address)
  \/ line <> victim (c !!! Z.to_nat (set_index_of address)) ->
  entry_at (i_cache (l2_insert_line c address write_data ewa ewd status)) set line
  = entry_at c set line.
Proof.
  intros H. rewrite l2_insert_cache. apply entry_at_set_entry_ne.
  destruct H; [left | right]; congruence.
Qed.

End L2_procedures.

(** ** Uniqueness of the resident tags *)

Section L2_unique_tags.

Import L2.

Implicit Types (c : list L2_CACHE_SET).

Lemma unique_tags_initialize c : l2_wf c -> unique_tags (l2_initialize c).
Proof.
  intros Hwf set i j Hi _ _. rewrite l2_initialize_invalid in Hi by assumption.
  discriminate Hi.
Qed.

Lemma unique_tags_access c address write_data control read_data status :
  unique_tags c ->
  unique_tags (a_cache (l2_cache_access c address write_data control read_data status)).
Proof.
  intros Hu set i j.
  destruct (l2_access_valid_tag c address write_data control read_data status set i)
    as [-> ->].
  destruct (l2_access_valid_tag c address write_data control read_data status set j)
    as [-> ->].
  apply Hu.
Qed.

Lemma unique_tags_clear_r_bits c : unique_tags c -> unique_tags (l2_clear_r_bits c).
Proof.
  intros Hu set i j.
  rewrite !l2_clear_r_bits_valid, !l2_clear_r_bits_tag. apply Hu.
Qed.

(** A valid entry of the addressed set that carries the address's tag
    makes the address resident. *)
Lemma resident_by_entry c address line :
  l2_wf c ->
  valid (entry_at c (Z.to_nat (set_index_of address)) line) = true ->
  entry_tag (entry_at c (Z.to_nat (set_index_of address)) line) = tag_of address ->
  resident c address = true.
Proof.
  intros Hwf Hv Ht. unfold resident. apply negb_true_iff, Z.eqb_neq.
  intros Hmiss. rewrite find_line_miss in Hmiss.
  assert (Hin := valid_in_array _ _ _ Hv).
  apply (l2_wf_in_array _ _ _ Hwf) in Hin as [_ Hline].
  specialize (Hmiss line ltac:(lia)).
  rewrite matches_fields in Hmiss. unfold entry_at in Hv, Ht.
  rewrite Hv, Ht, Z.eqb_refl in Hmiss. discriminate.
Qed.

Lemma unique_tags_insert c address write_data ewa ewd status :
  l2_wf c -> unique_tags c -> resident c address = false ->
  unique_tags (i_cache (l2_insert_line c address write_data ewa ewd status)).
Proof.
  intros Hwf Hu Hmiss set i j Hvi Hvj Htag.
  set (si := Z.to_nat (set_index_of address)) in *.
  set (k := victim (c !!! si)) in *.
  destruct (l2_insert_entry c address write_data ewa ewd status Hwf)
    as (_ & _ & _ & Hnew & _). fold si k in Hnew.
  assert (Hold : forall line, line <> k ->
            valid (entry_at (i_cache (l2_insert_line c address write_data ewa ewd status))
                            si line) = true ->
            entry_tag (entry_at (i_cache (l2_insert_line c address write_data ewa ewd status))
                                si line) <> tag_of address).
  { intros line Hne Hv Ht.
    rewrite l2_insert_other in Hv, Ht by (right; exact Hne).
    rewrite (resident_by_entry c address line Hwf Hv Ht) in Hmiss. discriminate. }
  destruct (decide (set = si)) as [->|Hset].
  - destruct (decide (i = k)) as [->|Hik], (decide (j = k)) as [->|Hjk].
    + reflexivity.
    + exfalso. apply (Hold j Hjk Hvj). congruence.
    + exfalso. apply (Hold i Hik Hvi). congruence.
    + rewrite l2_insert_other in Hvi, Hvj by (right; assumption).
      rewrite (l2_insert_other _ _ _ _ _ _ si i),
              (l2_insert_other _ _ _ _ _ _ si j) in Htag by (right; assumption).
      apply (Hu si); assumption.
  - rewrite l2_insert_other in Hvi, Hvj by (left; assumption).
    rewrite (l2_insert_other _ _ _ _ _ _ set i),
            (l2_insert_other _ _ _ _ _ _ set j) in Htag by (left; assumption).
    apply (Hu set); assumption.
Qed.

Lemma reachable_wf may_insert c : reachable may_insert c -> l2_wf c.
Proof.
  induction 1.
  - apply l2_initialize_wf. assumption.
  - apply l2_access_wf. assumption.
  - apply l2_insert_wf. assumption.
  - apply l2_clear_r_bits_wf. assumption.
Qed.

End L2_unique_tags.

(** * Concrete runs are well-formed arrays *)

Section Scenario_facts.

Import Scenario.

Lemma l1_power_on_wf : L1.l1_wf L1.l1_power_on.
Proof.
  split; [apply length_replicate|].
  apply Forall_replicate, length_replicate.
Qed.

Lemma l2_power_on_wf : L2.l2_wf L2.l2_power_on.
Proof.
  split; [apply length_replicate|].
  apply Forall_replicate. split; [apply length_replicate|].
  apply Forall_replicate, length_replicate.
Qed.

Lemma l2_start_reachable may_insert : L2.reachable may_insert l2_start.
Proof. apply L2.reach_initialize, l2_power_on_wf. Qed.

Lemma four_clean_lines_reachable : L2.reachable L2.any_insert four_clean_lines.
Proof.
  unfold four_clean_lines, l2_insert.
  do 4 (apply L2.reach_insert; [|exact I]).
  apply l2_start_reachable.
Qed.

Lemma way_2_unreferenced_reachable : L2.reachable L2.any_insert way_2_unreferenced.
Proof.
  unfold way_2_unreferenced, l2_read.
  do 3 apply L2.reach_access. apply four_clean_lines_reachable.
Qed.

Lemma inserted_twice_reachable : L2.reachable L2.any_insert inserted_twice.
Proof.
  unfold inserted_twice, inserted_once, l2_insert.
  do 2 (apply L2.reach_insert; [|exact I]).
  apply l2_start_reachable.
Qed.

End Scenario_facts.

(** * The replacement choice of [l2_insert_line] *)

Section L2_victim.

Import L2.

(** In a full set that holds a line with [reference = 0] and
    [dirty = 0], the loop leaves in [r0_d0_index] the last such line, and
    that line is the victim. *)
Lemma victim_last_r0_d0 (s : L2_CACHE_SET) (k : nat) :
  (forall j, (j < L2_LINES_PER_SET)%nat -> valid (lines s !!! j) = true) ->
  (k < L2_LINES_PER_SET)%nat ->
  r0_d0 (v_r_d_tag (lines s !!! k)) = true ->
  (forall j, (k < j < L2_LINES_PER_SET)%nat ->
     r0_d0 (v_r_d_tag (lines s !!! j)) = false) ->
  victim s = k.
Proof.
  intros Hall Hk Hkt Hafter.
  destruct (victim_spec s) as [(Hv & Hr & _) | (_ & _ & Hs)].
  - rewrite (Hall _ Hr) in Hv. discriminate.
  - unfold victim. rewrite Hs. unfold choose.
    destruct (last_where_spec r0_d0 L2_LINES_PER_SET 0 s NOT_FOUND)
      as [[_ Hnone] | (j & -> & Hj & Hjt & Hlast)].
    + rewrite Hnone in Hkt by lia. discriminate.
    + rewrite line_is_found by lia. simpl. rewrite Nat2Z.id.
      destruct (Nat.lt_trichotomy j k) as [Hlt | [-> | Hgt]].
      * rewrite Hlast in Hkt by lia. discriminate.
      * reflexivity.
      * rewrite Hafter in Hjt by lia. discriminate.
Qed.

Lemma tier_rank_cases (v : Z) :
  (r0_d0 v = true /\ tier_rank v = 0%nat) \/
  (r0_d0 v = false /\ r0_d1 v = true /\ tier_rank v = 1%nat) \/
  (r0_d0 v = false /\ r0_d1 v = false /\ r1_d0 v = true /\ tier_rank v = 2%nat) \/
  (r0_d0 v = false /\ r0_d1 v = false /\ r1_d0 v = false /\ tier_rank v = 3%nat).
Proof.
  unfold tier_rank, r0_d0, r0_d1, r1_d0.
  destruct (test v L2_RBIT_MASK), (test v L2_DIRTYBIT_MASK); simpl; tauto.
Qed.

(** What the code does in a full set: the victim belongs to the best tier
    present (the order of preference is respected), it is the last line
    of that tier for the three remembered tiers, and way 0 when every
    line has [r = 1, d = 1]. *)
Lemma victim_in_full_set (s : L2_CACHE_SET) :
  (forall j, (j < L2_LINES_PER_SET)%nat -> valid (lines s !!! j) = true) ->
  let rank j := tier_rank (v_r_d_tag (lines s !!! j)) in
  (forall j, (j < L2_LINES_PER_SET)%nat -> (rank (victim s) <= rank j)%nat) /\
  ((rank (victim s) < 3)%nat ->
   forall j, (j < L2_LINES_PER_SET)%nat -> rank j = rank (victim s) ->
     (j <= victim s)%nat) /\
  (rank (victim s) = 3%nat -> victim s = 0%nat).
Proof.
  intros Hall rank.
  destruct (victim_spec s) as [(Hv & Hr & _) | (_ & _ & Hs)];
    [rewrite (Hall _ Hr) in Hv; discriminate|].
  assert (Hrank : forall j, rank j = tier_rank (v_r_d_tag (lines s !!! j)))
    by reflexivity.
  unfold victim. rewrite Hs. unfold choose.
  destruct (last_where_spec r0_d0 L2_LINES_PER_SET 0 s NOT_FOUND)
    as [[-> Hnone0] | (j0 & -> & Hj0 & Ht0 & Hlast0)].
  2:{ rewrite line_is_found by lia. cbn [negb]. rewrite Nat2Z.id.
      destruct (tier_rank_cases (v_r_d_tag (lines s !!! j0)))
        as [[_ H0] | [[H _] | [[H _] | [H _]]]]; try congruence.
      rewrite <- Hrank in H0. split_and!; try lia.
      intros _ j Hj Hrj. rewrite H0, Hrank in Hrj.
      destruct (tier_rank_cases (v_r_d_tag (lines s !!! j)))
        as [[H _] | [(_ & _ & H) | [(_ & _ & _ & H) | (_ & _ & _ & H)]]];
        try congruence.
      destruct (decide (j <= j0)%nat); [assumption|].
      rewrite Hlast0 in H by lia. discriminate. }
  change (negb (NOT_FOUND =? NOT_FOUND)) with false. cbn iota.
  destruct (last_where_spec r0_d1 L2_LINES_PER_SET 0 s NOT_FOUND)
    as [[-> Hnone1] | (j1 & -> & Hj1 & Ht1 & Hlast1)].
  2:{ rewrite line_is_found by lia. cbn [negb]. rewrite Nat2Z.id.
      destruct (tier_rank_cases (v_r_d_tag (lines s !!! j1)))
        as [[H _] | [(_ & _ & H1) | [(_ & H & _) | (_ & H & _)]]];
        try congruence.
      { rewrite Hnone0 in H by lia. discriminate. }
      rewrite <- Hrank in H1. split_and!; try lia.
      - intros j Hj. rewrite H1, Hrank.
        destruct (tier_rank_cases (v_r_d_tag (lines s !!! j)))
          as [[H _] | [(_ & _ & H) | [(_ & _ & _ & H) | (_ & _ & _ & H)]]];
          try lia.
        rewrite Hnone0 in H by lia. discriminate.
      - intros _ j Hj Hrj. rewrite H1, Hrank in Hrj.
        destruct (tier_rank_cases (v_r_d_tag (lines s !!! j)))
          as [[_ H] | [(_ & H & _) | [(_ & _ & _ & H) | (_ & _ & _ & H)]]];
          try congruence.
        destruct (decide (j <= j1)%nat); [assumption|].
        rewrite Hlast1 in H by lia. discriminate. }
  change (negb (NOT_FOUND =? NOT_FOUND)) with false. cbn iota.
  destruct (last_where_spec r1_d0 L2_LINES_PER_SET 0 s NOT_FOUND)
    as [[-> Hnone2] | (j2 & -> & Hj2 & Ht2 & Hlast2)].
  2:{ rewrite line_is_found by lia. cbn [negb]. rewrite Nat2Z.id.
      destruct (tier_rank_cases (v_r_d_tag (lines s !!! j2)))
        as [[H _] | [(_ & H & _) | [(_ & _ & _ & H2) | (_ & _ & H & _)]]];
        try congruence.
      { rewrite Hnone0 in H by lia. discriminate. }
      { rewrite Hnone1 in H by lia. discriminate. }
      rewrite <- Hrank in H2. split_and!; try lia.
      - intros j Hj. rewrite H2, Hrank.
        destruct (tier_rank_cases (v_r_d_tag (lines s !!! j)))
          as [[H _] | [(_ & H & _) | [(_ & _ & _ & H) | (_ & _ & _ & H)]]];
          try lia.
        + rewrite Hnone0 in H by lia. discriminate.
        + rewrite Hnone1 in H by lia. discriminate.
      - intros _ j Hj Hrj. rewrite H2, Hrank in Hrj.
        destruct (tier_rank_cases (v_r_d_tag (lines s !!! j)))
          as [[_ H] | [(_ & _ & H) | [(_ & _ & H & _) | (_ & _ & _ & H)]]];
          try congruence.
        destruct (decide (j <= j2)%nat); [assumption|].
        rewrite Hlast2 in H by lia. discriminate. }
  change (negb (NOT_FOUND =? NOT_FOUND)) with false. cbn iota.
  change (Z.to_nat 0) with 0%nat.
  assert (H3 : forall j, (j < L2_LINES_PER_SET)%nat -> rank j = 3%nat).
  { intros j Hj. rewrite Hrank.
    destruct (tier_rank_cases (v_r_d_tag (lines s !!! j)))
      as [[H _] | [(_ & H & _) | [(_ & _ & H & _) | (_ & _ & _ & H)]]];
      [rewrite Hnone0 in H by lia; discriminate
      |rewrite Hnone1 in H by lia; discriminate
      |rewrite Hnone2 in H by lia; discriminate
      |exact H]. }
  assert (H0 : rank 0%nat = 3%nat) by (apply H3; unfold L2_LINES_PER_SET; lia).
  split_and!.
  - intros j Hj. rewrite H0, (H3 j Hj). lia.
  - intros Hlt. rewrite H0 in Hlt. lia.
  - reflexivity.
Qed.

(** C1: in a full set the victim is meant to be the first line of the
    best tier.  Set 0 of [four_clean_lines] holds four valid lines with
    [reference = 0] and [dirty = 0] (tags 0 to 3 in ways 0 to 3); the
    code's victim is way 3, the last line of the tier, because
    [if (r0_d0_index = NOT_FOUND)] assigns instead of comparing, and the
    fifth insertion overwrites way 3 and leaves way 0 in place. *)
Theorem C1_victim_is_last_of_tier :
  let s := Scenario.four_clean_lines !!! 0%nat in
  map (fun e => (valid e, referenced e, dirty e, entry_tag e)) (lines s)
    = [(true, false, false, 0); (true, false, false, 1);
       (true, false, false, 2); (true, false, false, 3)] /\
  victim s = 3%nat /\
  map entry_tag
      (lines (Scenario.l2_insert Scenario.four_clean_lines
                (Scenario.l2_address 4 0) (Scenario.line_of 14) !!! 0%nat))
    = [0; 1; 2; 4].
Proof. vm_compute. repeat split. Qed.

(** C7: in a full set where exactly one way has [reference = 0] and
    [dirty = 0] and the three others have [reference = 1], an insertion
    overwrites that way, wherever it sits: it becomes the new line, every
    other entry of the cache is unchanged, and no write-back is reported. *)
Theorem C7_single_unreferenced_clean_way_is_evicted
    (c : list L2_CACHE_SET) (address : Z) (write_data : list Z)
    (ewa : Z) (ewd : list Z) (status : Z) (k : nat) :
  l2_wf c ->
  length write_data = WORDS_PER_CACHE_LINE ->
  let set := Z.to_nat (set_index_of address) in
  (forall j, (j < L2_LINES_PER_SET)%nat -> valid (entry_at c set j) = true) ->
  (k < L2_LINES_PER_SET)%nat ->
  referenced (entry_at c set k) = false ->
  dirty (entry_at c set k) = false ->
  (forall j, (j < L2_LINES_PER_SET)%nat -> j <> k ->
     referenced (entry_at c set j) = true) ->
  let r := l2_insert_line c address write_data ewa ewd status in
  victim (c !!! set) = k /\
  valid (entry_at (i_cache r) set k) = true /\
  entry_tag (entry_at (i_cache r) set k) = tag_of address /\
  cache_line (entry_at (i_cache r) set k) = write_data /\
  (forall set' j, set' <> set \/ j <> k ->
     entry_at (i_cache r) set' j = entry_at c set' j) /\
  status_bit (i_status r) = false.
Proof.
  intros Hwf Hlen set Hall Hk Hr Hd Hothers r.
  assert (Hvictim : victim (c !!! set) = k).
  { apply victim_last_r0_d0; try assumption.
    - unfold r0_d0. unfold referenced, dirty, entry_at in Hr, Hd.
      rewrite Hr, Hd. reflexivity.
    - intros j Hj. unfold r0_d0.
      specialize (Hothers j ltac:(lia) ltac:(lia)).
      unfold referenced, entry_at in Hothers. rewrite Hothers. reflexivity. }
  destruct (l2_insert_entry c address write_data ewa ewd status Hwf)
    as (Hv' & _ & _ & Ht' & Hl').
  fold set in Hv', Ht', Hl'. rewrite Hvictim in Hv', Ht', Hl'.
  split_and!; try assumption.
  - unfold r. rewrite Hl'. apply copy_line_exact; [assumption|].
    apply l2_wf_line_length; [assumption|].
    rewrite <- Hvictim. apply l2_victim_in_array, Hwf.
  - intros set' j Hne. apply l2_insert_other. fold set. rewrite Hvictim. exact Hne.
  - unfold r. rewrite l2_insert_status. fold set. rewrite Hvictim, Hd.
    apply andb_false_r.
Qed.

End L2_victim.

Section L2_victim_run.

Import L2.

Lemma C7_witness :
  victim (Scenario.way_2_unreferenced
            !!! Z.to_nat (set_index_of (Scenario.l2_address 4 0))) = 2%nat.
Proof.
  refine (proj1 (C7_single_unreferenced_clean_way_is_evicted
                   Scenario.way_2_unreferenced (Scenario.l2_address 4 0)
                   (Scenario.line_of 14) 0 (Scenario.line_of 0) 0 2%nat
                   _ _ _ _ _ _ _)).
  - exact (reachable_wf _ _ way_2_unreferenced_reachable).
  - reflexivity.
  - intros j Hj. unfold L2_LINES_PER_SET in Hj.
    destruct j as [|[|[|[|j]]]]; [vm_compute; reflexivity .. | lia].
  - unfold L2_LINES_PER_SET. lia.
  - vm_compute. reflexivity.
  - vm_compute. reflexivity.
  - intros j Hj Hne. unfold L2_LINES_PER_SET in Hj.
    destruct j as [|[|[|[|j]]]];
      [ vm_compute; reflexivity | vm_compute; reflexivity
      | exfalso; apply Hne; reflexivity | vm_compute; reflexivity | lia ].
Defined.

End L2_victim_run.

(** * Tag uniqueness over the reachable states *)

Section L2_reachable.

Import L2.

(** C2, as stated: the invariant would hold after any sequence of calls.
    Two insertions of the same address in a row leave two valid entries
    with the same tag in ways 0 and 1 of the set. *)
Lemma C2_counterexample :
  ~ (forall c, reachable any_insert c -> unique_tags c).
Proof.
  intros H.
  specialize (H Scenario.inserted_twice inserted_twice_reachable 0%nat 0%nat 1%nat).
  assert (Heq : 0%nat = 1%nat); [|discriminate Heq].
  apply H; vm_compute; reflexivity.
Qed.

(** C2, amended: within every set at most one valid entry carries a given
    tag, in every state reachable from the initialized cache by
    [l2_cache_access], [l2_clear_r_bits], and [l2_insert_line] called on
    addresses that are not resident at the time of the call. *)
Theorem C2_unique_tags_when_inserting_after_miss (c : list L2_CACHE_SET) :
  reachable insert_after_miss c -> unique_tags c.
Proof.
  induction 1 as [c Hwf | c address write_data control read_data status Hr IH
                 | c address write_data ewa ewd status Hr IH Hmiss | c Hr IH].
  - apply unique_tags_initialize. assumption.
  - apply unique_tags_access. assumption.
  - apply unique_tags_insert; try assumption.
    apply (reachable_wf _ _ Hr).
  - apply unique_tags_clear_r_bits. assumption.
Qed.

Lemma C2_witness : unique_tags Scenario.inserted_once.
Proof.
  apply C2_unique_tags_when_inserting_after_miss.
  unfold Scenario.inserted_once, Scenario.l2_insert.
  apply reach_insert.
  - apply l2_start_reachable.
  - vm_compute. reflexivity.
Defined.

End L2_reachable.

(** * L1: size of the array and write-back of a dirty line *)

Section L1_claims.

Import L1.

Lemma l1_insert_wf c address write_data ewa ewd status :
  l1_wf c -> l1_wf (i_cache (l1_insert_line c address write_data ewa ewd status)).
Proof.
  intros Hwf. pose proof Hwf as [Hlen Hall]. rewrite l1_insert_cache. split.
  - rewrite length_insert. assumption.
  - apply Forall_insert; [assumption|]. simpl. rewrite length_copy_line.
    apply l1_line_length. assumption.
Qed.

Lemma l1_installed_wf : l1_wf Scenario.l1_installed.
Proof. apply l1_insert_wf, l1_power_on_wf. Qed.

(** C3: the L1 cache is meant to have exactly 1024 entries, one per value
    of the 10-bit index.  The index of every address is indeed below
    1024, but [L1_NUM_CACHE_ENTRIES] is [1 << 11]: the array has 2048
    entries, and the upper 1024 are never addressed. *)
Theorem C3_l1_array_has_2048_entries :
  L1_NUM_CACHE_ENTRIES = 2048 /\
  length l1_power_on = 2048%nat /\
  length (l1_initialize l1_power_on) = 2048%nat /\
  forall address, 0 <= entry_index_of address < 1024.
Proof.
  split_and!; try (vm_compute; reflexivity).
  apply l1_entry_index_bound.
Qed.

(** C4: a line made dirty by a write hit of [l1_cache_access] and then
    evicted by [l1_insert_line] on an address with the same index is
    written back at [(tag << 16) | (index << 6)], the address of the line
    that was written, and the write-back data is the line as the write
    left it, word for word, with the written word at its offset.  (The
    new address's tag plays no part in it.) *)
Theorem C4_l1_dirty_line_is_written_back
    (c : list L1_CACHE_ENTRY) (address write_word control read_data status : Z)
    (address' : Z) (new_line : list Z) (ewa : Z) (ewd : list Z) (status' : Z) :
  l1_wf c ->
  0 <= address < 2 ^ 32 ->
  (WORDS_PER_CACHE_LINE <= length ewd)%nat ->
  test control WRITE_ENABLE_MASK = true ->
  let w := l1_cache_access c address write_word control read_data status in
  status_bit (a_status w) = true ->
  entry_index_of address' = entry_index_of address ->
  let index := Z.to_nat (entry_index_of address) in
  let offset := Z.to_nat (word_offset_of address) in
  let r := l1_insert_line (a_cache w) address' new_line ewa ewd status' in
  entry_tag (a_cache w !!! index) = tag_of address /\
  cache_line (a_cache w !!! index) = <[offset := write_word]> (cache_line (c !!! index)) /\
  cache_line (a_cache w !!! index) !! offset = Some write_word /\
  status_bit (i_status r) = true /\
  i_evicted_writeback_address r
    = Z.lor (Z.shiftl (entry_tag (a_cache w !!! index)) 16)
            (Z.shiftl (entry_index_of address) 6) /\
  i_evicted_writeback_address r
    = BYTES_PER_CACHE_LINE * (address / BYTES_PER_CACHE_LINE) /\
  take WORDS_PER_CACHE_LINE (i_evicted_writeback_data r)
    = cache_line (a_cache w !!! index).
Proof.
  intros Hwf Ha Hewd Hwrite w Hhit Hindex index offset r.
  unfold w in Hhit. rewrite l1_access_status in Hhit.
  pose proof (l1_index_in_range c Hwf address) as Hrange.
  pose proof (l1_line_length c Hwf address) as Hline.
  pose proof (l1_word_offset_bound address) as Hoff.
  assert (Hentry : a_cache w !!! index
            = {| v_d_tag := Z.lor (v_d_tag (c !!! index)) L1_DIRTYBIT_MASK;
                 cache_line := <[offset := write_word]> (cache_line (c !!! index)) |}).
  { unfold w. rewrite l1_access_hit by assumption. simpl. rewrite Hwrite.
    apply list_lookup_total_insert_eq. exact Hrange. }
  unfold l1_hit in Hhit. apply andb_true_iff in Hhit as [Hvalid Htag].
  apply Z.eqb_eq in Htag. fold index in Hvalid, Htag, Hline.
  assert (Htag' : entry_tag (a_cache w !!! index) = tag_of address).
  { rewrite Hentry. unfold entry_tag. simpl. rewrite l1_set_dirty_tag. exact Htag. }
  assert (Hvd : valid (a_cache w !!! index) && dirty (a_cache w !!! index) = true).
  { rewrite Hentry. unfold valid, dirty. simpl.
    rewrite l1_set_dirty_valid, l1_set_dirty_dirty. unfold valid in Hvalid.
    rewrite Hvalid. reflexivity. }
  pose proof (l1_insert_outputs (a_cache w) address' new_line ewa ewd status') as Hout.
  cbv zeta in Hout. rewrite Hindex in Hout. fold index r in Hout.
  rewrite Hvd in Hout. injection Hout as Hea Hed.
  split_and!.
  - exact Htag'.
  - rewrite Hentry. reflexivity.
  - rewrite Hentry. simpl. apply list_lookup_insert_eq.
    rewrite Hline. unfold offset, WORDS_PER_CACHE_LINE. lia.
  - unfold r. rewrite l1_insert_status, Hindex. exact Hvd.
  - exact Hea.
  - rewrite Hea, Htag'. apply l1_line_address. exact Ha.
  - rewrite Hed. apply take_copy_line; [|exact Hewd].
    rewrite Hentry. simpl. rewrite length_insert. exact Hline.
Qed.

Lemma C4_witness :
  let w := l1_cache_access Scenario.l1_installed 0x12340048 99 WRITE_ENABLE_MASK 0 0 in
  let r := l1_insert_line (a_cache w) 0x56780040 (Scenario.line_of 8) 0
             (Scenario.line_of 0) 0 in
  i_evicted_writeback_address r = BYTES_PER_CACHE_LINE * (0x12340048 / BYTES_PER_CACHE_LINE).
Proof.
  refine (proj1 (proj2 (proj2 (proj2 (proj2 (proj2
    (C4_l1_dirty_line_is_written_back Scenario.l1_installed 0x12340048 99
       WRITE_ENABLE_MASK 0 0 0x56780040 (Scenario.line_of 8) 0
       (Scenario.line_of 0) 0 _ _ _ _ _ _))))))).
  - exact l1_installed_wf.
  - lia.
  - vm_compute. lia.
  - reflexivity.
  - vm_compute. reflexivity.
  - reflexivity.
Defined.

End L1_claims.

(** * Hits and misses of [l2_cache_access] *)

Section L2_access_claims.

Import L2.

(** C8: a hit of [l2_cache_access] sets the reference bit of the matched
    entry, the first valid line of the set that carries the tag, whatever
    the read-enable and write-enable bits are; with write-enable it also
    sets the dirty bit and replaces the 16 words of the line by
    [write_data]. *)
Theorem C8_l2_hit_sets_reference_bit
    (c : list L2_CACHE_SET) (address : Z) (write_data : list Z) (control : Z)
    (read_data : list Z) (status : Z) :
  l2_wf c ->
  let r := l2_cache_access c address write_data control read_data status in
  let set := Z.to_nat (set_index_of address) in
  status_bit (a_status r) = true ->
  exists line,
    (line < L2_LINES_PER_SET)%nat /\
    valid (entry_at c set line) = true /\
    entry_tag (entry_at c set line) = tag_of address /\
    (forall j, (j < line)%nat -> matches (c !!! set) (tag_of address) j = false) /\
    referenced (entry_at (a_cache r) set line) = true /\
    (test control WRITE_ENABLE_MASK = true ->
       dirty (entry_at (a_cache r) set line) = true /\
       (length write_data = WORDS_PER_CACHE_LINE ->
          cache_line (entry_at (a_cache r) set line) = write_data)).
Proof.
  intros Hwf r set Hhit. unfold r in Hhit. rewrite l2_access_status in Hhit.
  destruct (l2_access_hit c address write_data control read_data status Hhit)
    as (line & Hline & Hm & Hfirst & Heq).
  fold set in Hm, Hfirst, Heq. fold r in Heq.
  pose proof (matches_in_array _ _ _ _ Hm) as Hin.
  rewrite matches_fields in Hm. apply andb_true_iff in Hm as [Hv Ht].
  apply Z.eqb_eq in Ht.
  exists line. split_and!; try assumption.
  - rewrite Heq. simpl. rewrite entry_at_set_entry_eq by assumption.
    unfold referenced.
    destruct (test control WRITE_ENABLE_MASK); simpl;
      rewrite ?l2_set_d_referenced; apply l2_set_r_referenced.
  - intros Hw. rewrite Heq. simpl. rewrite entry_at_set_entry_eq by assumption.
    rewrite Hw. unfold dirty. simpl. split; [apply l2_set_d_dirty|].
    intros Hlen. apply copy_line_exact; [assumption|].
    apply l2_wf_line_length; assumption.
Qed.

Lemma C8_witness :
  exists line,
    referenced
      (entry_at (a_cache (l2_cache_access Scenario.four_clean_lines
                            (Scenario.l2_address 2 0) [] 0 [] 0))
                (Z.to_nat (set_index_of (Scenario.l2_address 2 0))) line) = true.
Proof.
  destruct (C8_l2_hit_sets_reference_bit Scenario.four_clean_lines
              (Scenario.l2_address 2 0) [] 0 [] 0)
    as (line & _ & _ & _ & _ & Href & _).
  - exact (reachable_wf _ _ four_clean_lines_reachable).
  - vm_compute. reflexivity.
  - exists line. exact Href.
Defined.

End L2_access_claims.

(** * Claims that speak of both caches *)

Section Both_caches.

Context (c1 : list L1.L1_CACHE_ENTRY) (c2 : list L2.L2_CACHE_SET).

(** C9: an access that misses, because no valid entry at the decoded
    index (L1) or in the decoded set (L2) carries the tag of the address,
    returns the cache unchanged, leaves [read_data] alone and reports
    [hit = false]. *)
Theorem C9_miss_changes_nothing
    (address write_word : Z) (write_line : list Z) (control : Z)
    (read_word : Z) (read_line : list Z) (status : Z) :
  (let e := c1 !!! Z.to_nat (L1.entry_index_of address) in
   ~ (L1.valid e = true /\ L1.entry_tag e = L1.tag_of address) ->
   let r := L1.l1_cache_access c1 address write_word control read_word status in
   L1.a_cache r = c1 /\ L1.a_read_data r = read_word /\
   status_bit (L1.a_status r) = false)
  /\
  (let set := Z.to_nat (L2.set_index_of address) in
   (forall line, (line < L2.L2_LINES_PER_SET)%nat ->
      ~ (L2.valid (L2.entry_at c2 set line) = true /\
         L2.entry_tag (L2.entry_at c2 set line) = L2.tag_of address)) ->
   let r := L2.l2_cache_access c2 address write_line control read_line status in
   L2.a_cache r = c2 /\ L2.a_read_data r = read_line /\
   status_bit (L2.a_status r) = false).
Proof.
  split.
  - intros e Hno r.
    assert (Hmiss : L1.l1_hit c1 address = false).
    { unfold L1.l1_hit. fold e. apply not_true_is_false. intros H.
      apply andb_true_iff in H as [Hv Ht]. apply Z.eqb_eq in Ht. tauto. }
    unfold r. rewrite l1_access_miss by assumption. simpl.
    split_and!; try reflexivity. apply status_bit_clear.
  - intros set Hno r.
    assert (Hmiss : L2.resident c2 address = false).
    { unfold L2.resident. apply negb_false_iff, Z.eqb_eq, find_line_miss.
      intros j Hj. rewrite matches_fields. apply not_true_is_false. intros H.
      apply andb_true_iff in H as [Hv Ht]. apply Z.eqb_eq in Ht.
      apply (Hno j); [lia|]. split; assumption. }
    unfold r. rewrite l2_access_miss by assumption. simpl.
    split_and!; try reflexivity. apply status_bit_clear.
Qed.

(** C10: when an insertion reports no write-back, at L1 and at L2, the
    caller's [evicted_writeback_address] and [evicted_writeback_data] come
    back as they went in. *)
Theorem C10_no_writeback_leaves_outputs_alone
    (address : Z) (write_data : list Z) (ewa : Z) (ewd : list Z) (status : Z) :
  (let r := L1.l1_insert_line c1 address write_data ewa ewd status in
   status_bit (L1.i_status r) = false ->
   L1.i_evicted_writeback_address r = ewa /\ L1.i_evicted_writeback_data r = ewd)
  /\
  (let r := L2.l2_insert_line c2 address write_data ewa ewd status in
   status_bit (L2.i_status r) = false ->
   L2.i_evicted_writeback_address r = ewa /\ L2.i_evicted_writeback_data r = ewd).
Proof.
  split; intros r Hst; unfold r in Hst.
  - rewrite l1_insert_status in Hst.
    pose proof (l1_insert_outputs c1 address write_data ewa ewd status) as Hout.
    cbv zeta in Hout. rewrite Hst in Hout. injection Hout as H1 H2. tauto.
  - rewrite l2_insert_status in Hst.
    pose proof (l2_insert_outputs c2 address write_data ewa ewd status) as Hout.
    cbv zeta in Hout. rewrite Hst in Hout. injection Hout as H1 H2. tauto.
Qed.

(** C5: an insertion reports a write-back exactly when the entry it
    overwrites was valid and dirty before the call, at L1 (the entry at
    the index) and at L2 (the victim); when it does, the eviction address
    is the old tag and the index put back together and the eviction data
    is the old line.  So an invalid way, or a clean line, gives no
    write-back. *)
Theorem C5_writeback_iff_valid_and_dirty
    (address : Z) (write_data : list Z) (ewa : Z) (ewd : list Z) (status : Z) :
  L1.l1_wf c1 -> L2.l2_wf c2 ->
  (WORDS_PER_CACHE_LINE <= length ewd)%nat ->
  (let index := Z.to_nat (L1.entry_index_of address) in
   let e := c1 !!! index in
   let r := L1.l1_insert_line c1 address write_data ewa ewd status in
   L1.i_cache r
     = <[index := {| L1.v_d_tag := L1.fill_status_word (L1.tag_of address);
                     L1.cache_line := copy_line write_data (L1.cache_line e) |}]> c1 /\
   status_bit (L1.i_status r) = L1.valid e && L1.dirty e /\
   (status_bit (L1.i_status r) = true ->
      L1.i_evicted_writeback_address r
        = Z.lor (Z.shiftl (L1.entry_tag e) L1.L1_ADDRESS_TAG_SHIFT)
                (Z.shiftl (L1.entry_index_of address) L1.L1_ADDRESS_INDEX_SHIFT) /\
      take WORDS_PER_CACHE_LINE (L1.i_evicted_writeback_data r) = L1.cache_line e))
  /\
  (let set := Z.to_nat (L2.set_index_of address) in
   let way := L2.victim (c2 !!! set) in
   let e := L2.entry_at c2 set way in
   let r := L2.l2_insert_line c2 address write_data ewa ewd status in
   L2.i_cache r
     = L2.set_entry c2 set way
         {| L2.v_r_d_tag := L2.fill_status_word (L2.v_r_d_tag e) (L2.tag_of address);
            L2.cache_line := copy_line write_data (L2.cache_line e) |} /\
   status_bit (L2.i_status r) = L2.valid e && L2.dirty e /\
   (status_bit (L2.i_status r) = true ->
      L2.i_evicted_writeback_address r
        = Z.lor (Z.shiftl (L2.entry_tag e) L2.L2_ADDRESS_TAG_SHIFT)
                (Z.shiftl (L2.set_index_of address) L2.L2_ADDRESS_INDEX_SHIFT) /\
      take WORDS_PER_CACHE_LINE (L2.i_evicted_writeback_data r) = L2.cache_line e)).
Proof.
  intros Hwf1 Hwf2 Hewd. split.
  - intros index e r. split_and!.
    + apply l1_insert_cache.
    + apply l1_insert_status.
    + intros Hst. unfold r in Hst. rewrite l1_insert_status in Hst.
      pose proof (l1_insert_outputs c1 address write_data ewa ewd status) as Hout.
      cbv zeta in Hout. rewrite Hst in Hout. injection Hout as H1 H2.
      split; [exact H1|]. fold r in H2. rewrite H2.
      apply take_copy_line; [|exact Hewd]. apply l1_line_length. exact Hwf1.
  - intros set way e r. split_and!.
    + apply l2_insert_cache.
    + apply l2_insert_status.
    + intros Hst. unfold r in Hst. rewrite l2_insert_status in Hst.
      pose proof (l2_insert_outputs c2 address write_data ewa ewd status) as Hout.
      cbv zeta in Hout. rewrite Hst in Hout. injection Hout as H1 H2.
      split; [exact H1|]. fold r in H2. rewrite H2.
      apply take_copy_line; [|exact Hewd].
      apply l2_wf_line_length; [exact Hwf2|]. apply l2_victim_in_array, Hwf2.
Qed.

End Both_caches.

(** * Insertion followed by a read *)

Section Round_trip.

(** C6, as stated for L2: a read that follows an insertion would return
    the inserted line for every address.  When the address is already
    resident in an earlier way, the second copy goes to another way and
    the read returns the older line. *)
Lemma C6_counterexample :
  ~ (forall (c : list L2.L2_CACHE_SET) (address : Z) (data ewd read_data : list Z),
       L2.reachable L2.any_insert c ->
       length data = WORDS_PER_CACHE_LINE ->
       length ewd = WORDS_PER_CACHE_LINE ->
       length read_data = WORDS_PER_CACHE_LINE ->
       let c' := L2.i_cache (L2.l2_insert_line c address data 0 ewd 0) in
       let r := L2.l2_cache_access c' address [] READ_ENABLE_MASK read_data 0 in
       status_bit (L2.a_status r) = true /\ L2.a_read_data r = data).
Proof.
  intros H.
  destruct (H Scenario.inserted_once (Scenario.l2_address 5 0)
              (Scenario.line_of 2) (Scenario.line_of 0) (Scenario.line_of 0))
    as [_ Heq].
  - unfold Scenario.inserted_once, Scenario.l2_insert.
    apply L2.reach_insert; [apply l2_start_reachable | exact I].
  - reflexivity.
  - reflexivity.
  - reflexivity.
  - vm_compute in Heq. discriminate Heq.
Qed.

(** C6, amended: an insertion followed at once by an access to the same
    address with read-enable reports a hit, at L1 and at L2.  At L1 the
    word returned is the word of the inserted line at the address's word
    offset.  At L2 the line returned is the inserted 16-word line when the
    address was not resident before the insertion. *)
Theorem C6_insert_then_read
    (c1 : list L1.L1_CACHE_ENTRY) (c2 : list L2.L2_CACHE_SET)
    (address : Z) (data : list Z) (ewa : Z) (ewd : list Z) (status : Z)
    (control write_word : Z) (write_line : list Z)
    (read_word : Z) (read_line : list Z) (status' : Z) :
  L1.l1_wf c1 -> L2.l2_wf c2 ->
  length data = WORDS_PER_CACHE_LINE ->
  (WORDS_PER_CACHE_LINE <= length read_line)%nat ->
  test control READ_ENABLE_MASK = true ->
  (let c' := L1.i_cache (L1.l1_insert_line c1 address data ewa ewd status) in
   let r := L1.l1_cache_access c' address write_word control read_word status' in
   status_bit (L1.a_status r) = true /\
   L1.a_read_data r = data !!! Z.to_nat (L1.word_offset_of address))
  /\
  (let c' := L2.i_cache (L2.l2_insert_line c2 address data ewa ewd status) in
   let r := L2.l2_cache_access c' address write_line control read_line status' in
   status_bit (L2.a_status r) = true /\
   (L2.resident c2 address = false ->
    take WORDS_PER_CACHE_LINE (L2.a_read_data r) = data)).
Proof.
  intros Hwf1 Hwf2 Hdata Hread Hctl. split.
  - intros c' r.
    pose proof (l1_index_in_range c1 Hwf1 address) as Hrange.
    pose proof (l1_tag_bound address) as Htag.
    assert (Hentry : c' !!! Z.to_nat (L1.entry_index_of address)
              = {| L1.v_d_tag := L1.fill_status_word (L1.tag_of address);
                   L1.cache_line := data |}).
    { unfold c'. rewrite l1_insert_cache.
      rewrite list_lookup_total_insert_eq by exact Hrange.
      f_equal. apply copy_line_exact; [exact Hdata|].
      apply l1_line_length. exact Hwf1. }
    assert (Hhit : L1.l1_hit c' address = true).
    { unfold L1.l1_hit. rewrite Hentry. unfold L1.valid, L1.entry_tag.
      cbn [L1.v_d_tag].
      rewrite l1_fill_valid, l1_fill_tag by lia. apply Z.eqb_refl. }
    unfold r. rewrite l1_access_hit by exact Hhit. simpl.
    split; [apply status_bit_set|]. rewrite Hctl, Hentry. reflexivity.
  - intros c' r.
    set (set := Z.to_nat (L2.set_index_of address)).
    set (k := L2.victim (c2 !!! set)).
    assert (Hwf' : L2.l2_wf c') by (apply l2_insert_wf; exact Hwf2).
    destruct (l2_insert_entry c2 address data ewa ewd status Hwf2)
      as (Hv & _ & _ & Ht & Hl).
    fold c' set k in Hv, Ht, Hl.
    assert (Hres : L2.resident c' address = true)
      by (apply (resident_by_entry c' address k Hwf' Hv Ht)).
    split.
    + unfold r. rewrite l2_access_status. exact Hres.
    + intros Hmiss.
      destruct (l2_access_hit c' address write_line control read_line status' Hres)
        as (j & _ & Hm & _ & Heq).
      fold set r in Hm, Heq.
      assert (Hj : j = k).
      { destruct (decide (j = k)) as [|Hne]; [assumption|]. exfalso.
        rewrite matches_fields in Hm. apply andb_true_iff in Hm as [Hvj Htj].
        apply Z.eqb_eq in Htj.
        change (L2.lines (c' !!! set) !!! j) with (L2.entry_at c' set j) in Hvj, Htj.
        unfold c' in Hvj, Htj.
        rewrite l2_insert_other in Hvj, Htj by (right; exact Hne).
        rewrite (resident_by_entry c2 address j Hwf2 Hvj Htj) in Hmiss.
        discriminate Hmiss. }
      subst j. rewrite Heq. simpl. rewrite Hctl, Hl.
      assert (Hold : length (L2.cache_line (L2.entry_at c2 set k))
                     = WORDS_PER_CACHE_LINE).
      { apply l2_wf_line_length; [exact Hwf2|]. apply l2_victim_in_array, Hwf2. }
      rewrite take_copy_line; [| rewrite length_copy_line; exact Hold | exact Hread].
      apply copy_line_exact; assumption.
Qed.

Lemma C6_witness :
  let c' := L2.i_cache (L2.l2_insert_line Scenario.inserted_once
                          (Scenario.l2_address 6 0) (Scenario.line_of 3)
                          0 (Scenario.line_of 0) 0) in
  let r := L2.l2_cache_access c' (Scenario.l2_address 6 0) [] READ_ENABLE_MASK
             (Scenario.line_of 0) 0 in
  take WORDS_PER_CACHE_LINE (L2.a_read_data r) = Scenario.line_of 3.
Proof.
  refine (proj2 (proj2 (C6_insert_then_read L1.l1_power_on Scenario.inserted_once
            (Scenario.l2_address 6 0) (Scenario.line_of 3) 0 (Scenario.line_of 0) 0
            READ_ENABLE_MASK 0 [] 0 (Scenario.line_of 0) 0 _ _ _ _ _)) _).
  - exact l1_power_on_wf.
  - apply (reachable_wf L2.any_insert).
    unfold Scenario.inserted_once, Scenario.l2_insert.
    apply L2.reach_insert; [apply l2_start_reachable | exact I].
  - reflexivity.
  - vm_compute. lia.
  - reflexivity.
  - vm_compute. reflexivity.
Defined.

End Round_trip.

(** * The claims about both caches on concrete runs *)

Section Both_caches_runs.

Lemma C9_witness :
  L1.a_cache (L1.l1_cache_access L1.l1_power_on 0x40 5 WRITE_ENABLE_MASK 0 1)
    = L1.l1_power_on /\
  L2.a_cache (L2.l2_cache_access L2.l2_power_on 0x40 (Scenario.line_of 5)
                WRITE_ENABLE_MASK [] 1)
    = L2.l2_power_on.
Proof.
  destruct (C9_miss_changes_nothing L1.l1_power_on L2.l2_power_on
              0x40 5 (Scenario.line_of 5) WRITE_ENABLE_MASK 0 [] 1) as [H1 H2].
  split.
  - apply H1. vm_compute. intros [H _]. discriminate H.
  - apply H2. intros line Hline. unfold L2.L2_LINES_PER_SET in Hline.
    destruct line as [|[|[|[|line]]]];
      [vm_compute; intros [H _]; discriminate H .. | lia].
Defined.

Lemma C10_witness :
  L1.i_evicted_writeback_address
    (L1.l1_insert_line L1.l1_power_on 0x40 (Scenario.line_of 5) 77
       (Scenario.line_of 9) 1) = 77 /\
  L2.i_evicted_writeback_data
    (L2.l2_insert_line L2.l2_power_on 0x40 (Scenario.line_of 5) 77
       (Scenario.line_of 9) 1) = Scenario.line_of 9.
Proof.
  destruct (C10_no_writeback_leaves_outputs_alone L1.l1_power_on L2.l2_power_on
              0x40 (Scenario.line_of 5) 77 (Scenario.line_of 9) 1) as [H1 H2].
  split.
  - apply H1. vm_compute. reflexivity.
  - apply H2. vm_compute. reflexivity.
Defined.

Lemma C5_witness :
  status_bit
    (L2.i_status (L2.l2_insert_line Scenario.four_clean_lines
                    (Scenario.l2_address 4 0) (Scenario.line_of 14) 0
                    (Scenario.line_of 0) 0))
  = false.
Proof.
  pose proof (C5_writeback_iff_valid_and_dirty Scenario.l1_installed
                Scenario.four_clean_lines (Scenario.l2_address 4 0)
                (Scenario.line_of 14) 0 (Scenario.line_of 0) 0
                l1_installed_wf
                (reachable_wf _ _ four_clean_lines_reachable)) as H.
  destruct H as [_ (_ & Hst & _)].
  - vm_compute. lia.
  - rewrite Hst. vm_compute. reflexivity.
Defined.

End Both_caches_runs.

(** * Further properties: address decoding *)

Section Address_decoding.

Lemma l1_fields address :
  L1.tag_of address = (address / 2 ^ 16) mod 2 ^ 16 /\
  L1.entry_index_of address = (address / 2 ^ 6) mod 2 ^ 10 /\
  L1.word_offset_of address = (address / 2 ^ 2) mod 2 ^ 4.
Proof.
  split_and!.
  - apply (field_of address 16 16); lia.
  - apply (field_of address 10 6); lia.
  - apply (field_of address 4 2); lia.
Qed.

Lemma l2_fields address :
  L2.tag_of address = (address / 2 ^ 18) mod 2 ^ 14 /\
  L2.set_index_of address = (address / 2 ^ 6) mod 2 ^ 12.
Proof.
  split.
  - apply (field_of address 14 18); lia.
  - apply (field_of address 12 6); lia.
Qed.

(** X1: the masks and shifts of both caches cut a 32-bit address into
    fields that share no bit and lose none: put back at their shifts,
    tag, index, word offset and the two byte-offset bits give the
    address at L1, and tag, set index and the six offset bits give it at
    L2. *)
Theorem X1_address_fields_cover_the_address (address : Z) :
  0 <= address < 2 ^ 32 ->
  address
  = Z.shiftl (L1.tag_of address) L1.L1_ADDRESS_TAG_SHIFT
    + Z.shiftl (L1.entry_index_of address) L1.L1_ADDRESS_INDEX_SHIFT
    + Z.shiftl (L1.word_offset_of address) L1.L1_ADDRESS_WORD_OFFSET_SHIFT
    + Z.land address 0x3
  /\
  address
  = Z.shiftl (L2.tag_of address) L2.L2_ADDRESS_TAG_SHIFT
    + Z.shiftl (L2.set_index_of address) L2.L2_ADDRESS_INDEX_SHIFT
    + Z.land address 0x3f.
Proof.
  intros Ha.
  destruct (l1_fields address) as (-> & -> & ->).
  destruct (l2_fields address) as (-> & ->).
  unfold L1.L1_ADDRESS_TAG_SHIFT, L1.L1_ADDRESS_INDEX_SHIFT,
    L1.L1_ADDRESS_WORD_OFFSET_SHIFT, L2.L2_ADDRESS_TAG_SHIFT,
    L2.L2_ADDRESS_INDEX_SHIFT.
  rewrite !Z.shiftl_mul_pow2 by lia.
  change 3 with (Z.ones 2). change 63 with (Z.ones 6).
  rewrite !Z.land_ones by lia.
  change (2 ^ 32) with 4294967296 in Ha.
  change (2 ^ 18) with 262144. change (2 ^ 16) with 65536.
  change (2 ^ 14) with 16384. change (2 ^ 12) with 4096.
  change (2 ^ 10) with 1024. change (2 ^ 6) with 64.
  change (2 ^ 4) with 16. change (2 ^ 2) with 4.
  split.
  - pose proof (Z.div_mod address 65536 ltac:(lia)).
    pose proof (Z.mod_small (address / 65536) 65536).
    pose proof (Z.div_mod address 64 ltac:(lia)).
    pose proof (Z.div_mod (address / 64) 1024 ltac:(lia)).
    pose proof (Z.div_mod address 4 ltac:(lia)).
    pose proof (Z.div_mod (address / 4) 16 ltac:(lia)).
    assert (address / 64 / 1024 = address / 65536)
      by (rewrite Z.div_div by lia; reflexivity).
    assert (address / 4 / 16 = address / 64)
      by (rewrite Z.div_div by lia; reflexivity).
    assert (0 <= address / 65536 < 65536)
      by (split; [apply Z.div_pos; lia | apply Z.div_lt_upper_bound; lia]).
    lia.
  - pose proof (Z.div_mod address 262144 ltac:(lia)).
    pose proof (Z.mod_small (address / 262144) 16384).
    pose proof (Z.div_mod address 64 ltac:(lia)).
    pose proof (Z.div_mod (address / 64) 4096 ltac:(lia)).
    assert (address / 64 / 4096 = address / 262144)
      by (rewrite Z.div_div by lia; reflexivity).
    assert (0 <= address / 262144 < 16384)
      by (split; [apply Z.div_pos; lia | apply Z.div_lt_upper_bound; lia]).
    lia.
Qed.

Lemma X1_witness :
  0x12345678
  = Z.shiftl (L2.tag_of 0x12345678) L2.L2_ADDRESS_TAG_SHIFT
    + Z.shiftl (L2.set_index_of 0x12345678) L2.L2_ADDRESS_INDEX_SHIFT
    + Z.land 0x12345678 0x3f.
Proof.
  refine (proj2 (X1_address_fields_cover_the_address 0x12345678 _)). lia.
Defined.

(** Addresses of one 64-byte line decode to the same tag and index. *)
Lemma same_line_fields (a b : Z) :
  a / BYTES_PER_CACHE_LINE = b / BYTES_PER_CACHE_LINE ->
  L1.tag_of a = L1.tag_of b /\ L1.entry_index_of a = L1.entry_index_of b /\
  L2.tag_of a = L2.tag_of b /\ L2.set_index_of a = L2.set_index_of b.
Proof.
  unfold BYTES_PER_CACHE_LINE. change 64 with (2 ^ 6). intros H.
  destruct (l1_fields a) as (-> & -> & _), (l1_fields b) as (-> & -> & _).
  destruct (l2_fields a) as (-> & ->), (l2_fields b) as (-> & ->).
  change (2 ^ 16) with (2 ^ 6 * 2 ^ 10) at 1 3.
  change (2 ^ 18) with (2 ^ 6 * 2 ^ 12).
  rewrite <- !Z.div_div by lia. rewrite H. tauto.
Qed.

(** X2: the address passed to an access can be anywhere within a cache
    line: two addresses in the same 64-byte line hit or miss together, at
    L1 and at L2, in every state of the caches. *)
Theorem X2_addresses_of_a_line_hit_together
    (c1 : list L1.L1_CACHE_ENTRY) (c2 : list L2.L2_CACHE_SET) (a b : Z) :
  a / BYTES_PER_CACHE_LINE = b / BYTES_PER_CACHE_LINE ->
  L1.l1_hit c1 a = L1.l1_hit c1 b /\ L2.resident c2 a = L2.resident c2 b.
Proof.
  intros H. destruct (same_line_fields a b H) as (Ht1 & Hi1 & Ht2 & Hi2).
  unfold L1.l1_hit, L2.resident. rewrite Ht1, Hi1, Ht2, Hi2. tauto.
Qed.

Lemma X2_witness :
  L2.resident Scenario.inserted_once 0x140000
  = L2.resident Scenario.inserted_once 0x14003c.
Proof.
  refine (proj2 (X2_addresses_of_a_line_hit_together L1.l1_power_on
                   Scenario.inserted_once 0x140000 0x14003c _)).
  reflexivity.
Defined.

End Address_decoding.

(** * Further properties: initialization *)

Section Initialization.

Lemma length_l1_initialize_loop n entry (c : list L1.L1_CACHE_ENTRY) :
  length (L1.l1_initialize_loop n entry c) = length c.
Proof.
  revert entry c. induction n as [|n IH]; intros entry c; simpl; [reflexivity|].
  rewrite IH. apply length_insert.
Qed.

Lemma lookup_l1_initialize_loop n entry (c : list L1.L1_CACHE_ENTRY) (j : nat) :
  L1.l1_initialize_loop n entry c !!! j =
  if decide ((entry <= j < entry + n)%nat /\ (j < length c)%nat)
  then {| L1.v_d_tag := 0; L1.cache_line := L1.cache_line (c !!! j) |}
  else c !!! j.
Proof.
  revert entry c. induction n as [|n IH]; intros entry c; simpl.
  - case_decide; [lia | reflexivity].
  - rewrite IH, length_insert, list_lookup_total_insert.
    repeat case_decide; try reflexivity; try lia;
      repeat match goal with H : _ /\ _ |- _ => destruct H end; subst;
      try reflexivity; lia.
Qed.

Lemma l1_initialize_entry (c : list L1.L1_CACHE_ENTRY) (address : Z) :
  L1.valid (L1.l1_initialize c !!! Z.to_nat (L1.entry_index_of address)) = false.
Proof.
  unfold L1.l1_initialize. rewrite lookup_l1_initialize_loop.
  pose proof (l1_entry_index_bound address) as Hb.
  change (Z.to_nat L1.L1_NUM_CACHE_ENTRIES) with 2048%nat.
  case_decide as H; [reflexivity|].
  rewrite lookup_total_outside by lia. reflexivity.
Qed.

(** X3: after [l1_initialize] the cache is empty whatever it held: every
    access misses, an insertion reports no write-back, and the line data
    of every entry is what it was, since only the status words are
    written. *)
Theorem X3_l1_initialize_empties_the_cache (c : list L1.L1_CACHE_ENTRY) :
  let c0 := L1.l1_initialize c in
  (forall address write_data control read_data status,
     status_bit (L1.a_status
       (L1.l1_cache_access c0 address write_data control read_data status))
     = false) /\
  (forall address write_data ewa ewd status,
     status_bit (L1.i_status
       (L1.l1_insert_line c0 address write_data ewa ewd status))
     = false) /\
  (forall j : nat, L1.cache_line (c0 !!! j) = L1.cache_line (c !!! j)).
Proof.
  cbv zeta. split_and!.
  - intros. rewrite l1_access_status. unfold L1.l1_hit.
    rewrite l1_initialize_entry. reflexivity.
  - intros. rewrite l1_insert_status, l1_initialize_entry. reflexivity.
  - intros j. unfold L1.l1_initialize. rewrite lookup_l1_initialize_loop.
    case_decide; reflexivity.
Qed.

Lemma l2_initialize_entry (c : list L2.L2_CACHE_SET) (address : Z) (line : nat) :
  (line < L2.L2_LINES_PER_SET)%nat ->
  L2.valid (L2.entry_at (L2.l2_initialize c)
              (Z.to_nat (L2.set_index_of address)) line) = false.
Proof.
  intros Hline. pose proof (l2_set_index_bound address) as Hb.
  set (set := Z.to_nat (L2.set_index_of address)).
  destruct (decide (L2.in_array c set line)) as [Hin|Hout].
  - unfold L2.l2_initialize. rewrite for_sets_entry by assumption.
    change (Z.to_nat L2.L2_NUM_CACHE_SETS) with 4096%nat.
    case_decide as H; [reflexivity|]. exfalso. apply H. unfold set. lia.
  - rewrite entry_at_outside; [reflexivity|].
    unfold L2.l2_initialize. rewrite for_sets_in_array. assumption.
Qed.

Lemma l2_initialize_line_data (c : list L2.L2_CACHE_SET) (set line : nat) :
  L2.cache_line (L2.entry_at (L2.l2_initialize c) set line)
  = L2.cache_line (L2.entry_at c set line).
Proof.
  destruct (decide (L2.in_array c set line)) as [Hin|Hout].
  - unfold L2.l2_initialize. rewrite for_sets_entry by assumption.
    case_decide; reflexivity.
  - rewrite !entry_at_outside; [reflexivity|assumption|].
    unfold L2.l2_initialize. rewrite for_sets_in_array. assumption.
Qed.

Lemma matches_entry_at (c : list L2.L2_CACHE_SET) (set : nat) (tag : Z) (j : nat) :
  L2.matches (c !!! set) tag j
  = L2.valid (L2.entry_at c set j) && (L2.entry_tag (L2.entry_at c set j) =? tag).
Proof. reflexivity. Qed.

(** In a set whose way 0 is invalid the victim is way 0. *)
Lemma victim_way_0 (c : list L2.L2_CACHE_SET) (set : nat) :
  L2.valid (L2.entry_at c set 0%nat) = false -> L2.victim (c !!! set) = 0%nat.
Proof.
  unfold L2.entry_at. generalize (c !!! set). intros s H0.
  destruct (victim_spec s) as [(_ & _ & Hbefore & _) | (Hall & _)].
  - destruct (L2.victim s) as [|k]; [reflexivity|].
    rewrite Hbefore in H0 by lia. discriminate H0.
  - rewrite Hall in H0 by (unfold L2.L2_LINES_PER_SET; lia). discriminate H0.
Qed.

(** X4: after [l2_initialize] the cache is empty whatever it held: every
    access misses, an insertion fills way 0 of its set and reports no
    write-back, and the line data of every entry is what it was. *)
Theorem X4_l2_initialize_empties_the_cache (c : list L2.L2_CACHE_SET) :
  let c0 := L2.l2_initialize c in
  (forall address write_data control read_data status,
     status_bit (L2.a_status
       (L2.l2_cache_access c0 address write_data control read_data status))
     = false) /\
  (forall address write_data ewa ewd status,
     L2.victim (c0 !!! Z.to_nat (L2.set_index_of address)) = 0%nat /\
     status_bit (L2.i_status
       (L2.l2_insert_line c0 address write_data ewa ewd status))
     = false) /\
  (forall set line : nat,
     L2.cache_line (L2.entry_at c0 set line) = L2.cache_line (L2.entry_at c set line)).
Proof.
  cbv zeta. split_and!.
  - intros. rewrite l2_access_status. unfold L2.resident.
    apply negb_false_iff, Z.eqb_eq, find_line_miss. intros j Hj.
    rewrite matches_entry_at, l2_initialize_entry by lia. reflexivity.
  - intros.
    assert (Hv : L2.victim (L2.l2_initialize c !!! Z.to_nat (L2.set_index_of address))
                 = 0%nat).
    { apply victim_way_0, l2_initialize_entry.
      unfold L2.L2_LINES_PER_SET. lia. }
    split; [exact Hv|].
    rewrite l2_insert_status, Hv.
    rewrite l2_initialize_entry by (unfold L2.L2_LINES_PER_SET; lia).
    reflexivity.
  - intros. apply l2_initialize_line_data.
Qed.

End Initialization.

(** * Further properties: the L1 cache *)

Section L1_more.

Import L1.

Implicit Types (c : list L1_CACHE_ENTRY).

(** X5: a write hit followed by a read of the same line returns the
    written word at the written offset and the word the line held before
    at any other offset; and when the writing call also has read-enable,
    the word it returns is the one the line held before the write. *)
Theorem X5_l1_write_then_read
    c (address write_word control read_data status : Z)
    (address' write_word' control' read_data' status' : Z) :
  l1_wf c ->
  l1_hit c address = true ->
  test control WRITE_ENABLE_MASK = true ->
  address' / BYTES_PER_CACHE_LINE = address / BYTES_PER_CACHE_LINE ->
  test control' READ_ENABLE_MASK = true ->
  let index := Z.to_nat (entry_index_of address) in
  let old := cache_line (c !!! index) in
  let w := l1_cache_access c address write_word control read_data status in
  let r := l1_cache_access (a_cache w) address' write_word' control' read_data' status' in
  (test control READ_ENABLE_MASK = true ->
   a_read_data w = old !!! Z.to_nat (word_offset_of address)) /\
  status_bit (a_status r) = true /\
  a_read_data r
  = if decide (word_offset_of address' = word_offset_of address)
    then write_word
    else old !!! Z.to_nat (word_offset_of address').
Proof.
  intros Hwf Hhit Hwrite Hline Hread index old w r.
  pose proof (l1_index_in_range c Hwf address) as Hrange.
  pose proof (l1_line_length c Hwf address) as Hlen.
  pose proof (l1_word_offset_bound address) as Hoff.
  pose proof (l1_word_offset_bound address') as Hoff'.
  destruct (same_line_fields address' address Hline) as (Ht & Hi & _).
  assert (Hw : w = {| a_cache :=
                        <[index := {| v_d_tag := Z.lor (v_d_tag (c !!! index))
                                                       L1_DIRTYBIT_MASK;
                                      cache_line :=
                                        <[Z.to_nat (word_offset_of address)
                                            := write_word]> old |}]> c;
                      a_read_data :=
                        if test control READ_ENABLE_MASK
                        then old !!! Z.to_nat (word_offset_of address)
                        else read_data;
                      a_status := status_set status |}).
  { unfold w. rewrite l1_access_hit by assumption. rewrite Hwrite. reflexivity. }
  assert (Hentry : a_cache w !!! index
            = {| v_d_tag := Z.lor (v_d_tag (c !!! index)) L1_DIRTYBIT_MASK;
                 cache_line :=
                   <[Z.to_nat (word_offset_of address) := write_word]> old |}).
  { rewrite Hw. cbn [a_cache]. apply list_lookup_total_insert_eq. exact Hrange. }
  assert (Hhit' : l1_hit (a_cache w) address' = true).
  { unfold l1_hit in *. rewrite Hi, Ht. fold index. rewrite Hentry.
    unfold valid, entry_tag in *. cbn [v_d_tag].
    rewrite l1_set_dirty_valid, l1_set_dirty_tag. exact Hhit. }
  split_and!.
  - intros Hr. rewrite Hw. cbn [a_read_data]. rewrite Hr. reflexivity.
  - unfold r. rewrite l1_access_status. exact Hhit'.
  - unfold r. rewrite l1_access_hit by exact Hhit'. cbn [a_read_data].
    rewrite Hread, Hi. fold index. rewrite Hentry. cbn [cache_line].
    rewrite list_lookup_total_insert.
    assert (Hlen' : length old = 16%nat) by exact Hlen.
    case_decide as Hd; case_decide as Hd'; try reflexivity.
    + exfalso. apply Hd'. destruct Hd as [Hd _]. lia.
    + exfalso. apply Hd. split; [congruence|]. lia.
Qed.

Lemma X5_witness :
  let w := l1_cache_access Scenario.l1_installed 0x12340048 99 WRITE_ENABLE_MASK 0 0 in
  let r := l1_cache_access (a_cache w) 0x12340048 0 READ_ENABLE_MASK 0 0 in
  status_bit (a_status r) = true.
Proof.
  refine (proj1 (proj2 (X5_l1_write_then_read Scenario.l1_installed
            0x12340048 99 WRITE_ENABLE_MASK 0 0 0x12340048 0 READ_ENABLE_MASK 0 0
            _ _ _ _ _))).
  - exact l1_installed_wf.
  - vm_compute. reflexivity.
  - reflexivity.
  - reflexivity.
  - reflexivity.
Defined.

(** X6: an access touches one word at most.  Every other entry of the
    cache is as before; in the addressed entry the valid bit and the tag
    are unchanged, a dirty bit that is set stays set, and every word but
    the addressed one is unchanged; without write-enable the whole cache
    is unchanged, hit or miss. *)
Theorem X6_l1_access_frame c (address write_word control read_data status : Z) :
  let index := Z.to_nat (entry_index_of address) in
  let c' := a_cache (l1_cache_access c address write_word control read_data status) in
  (forall j : nat, j <> index -> c' !!! j = c !!! j) /\
  valid (c' !!! index) = valid (c !!! index) /\
  entry_tag (c' !!! index) = entry_tag (c !!! index) /\
  (dirty (c !!! index) = true -> dirty (c' !!! index) = true) /\
  (forall k : nat, k <> Z.to_nat (word_offset_of address) ->
     cache_line (c' !!! index) !!! k = cache_line (c !!! index) !!! k) /\
  (test control WRITE_ENABLE_MASK = false -> c' = c).
Proof.
  intros index c'. unfold c'.
  destruct (l1_hit c address) eqn:Hhit.
  2:{ rewrite l1_access_miss by assumption. cbn [a_cache]. tauto. }
  rewrite l1_access_hit by assumption. cbn [a_cache]. fold index.
  destruct (test control WRITE_ENABLE_MASK); [|tauto].
  assert (Hin : (index < length c)%nat).
  { unfold l1_hit in Hhit. fold index in Hhit.
    destruct (decide (index < length c)%nat) as [|Hout]; [assumption|].
    rewrite lookup_total_outside in Hhit by lia. discriminate Hhit. }
  rewrite list_lookup_total_insert_eq by exact Hin.
  unfold valid, entry_tag, dirty. cbn [v_d_tag cache_line].
  split_and!.
  - intros j Hj. apply list_lookup_total_insert_ne. congruence.
  - apply l1_set_dirty_valid.
  - apply l1_set_dirty_tag.
  - intros _. apply l1_set_dirty_dirty.
  - intros k Hk. apply list_lookup_total_insert_ne. congruence.
  - discriminate.
Qed.

Lemma X6_witness :
  a_cache (l1_cache_access Scenario.l1_installed 0x12340048 99 READ_ENABLE_MASK 0 0)
  = Scenario.l1_installed.
Proof.
  refine (proj2 (proj2 (proj2 (proj2 (proj2
            (X6_l1_access_frame Scenario.l1_installed 0x12340048 99
               READ_ENABLE_MASK 0 0))))) _).
  reflexivity.
Defined.

Lemma l1_insert_lookup c address write_data ewa ewd status :
  l1_wf c ->
  i_cache (l1_insert_line c address write_data ewa ewd status)
    !!! Z.to_nat (entry_index_of address)
  = {| v_d_tag := fill_status_word (tag_of address);
       cache_line :=
         copy_line write_data
           (cache_line (c !!! Z.to_nat (entry_index_of address))) |}.
Proof.
  intros Hwf. rewrite l1_insert_cache.
  apply list_lookup_total_insert_eq, l1_index_in_range, Hwf.
Qed.

(** X7: the index alone decides where a line goes.  After an insertion
    the inserted address hits, every address with the same index and
    another tag misses (whatever was there is gone), and an address with
    another index hits or misses as before. *)
Theorem X7_l1_insertion_replaces_its_index
    c (address : Z) (write_data : list Z) (ewa : Z) (ewd : list Z) (status : Z) :
  l1_wf c ->
  let c' := i_cache (l1_insert_line c address write_data ewa ewd status) in
  l1_hit c' address = true /\
  (forall other,
     entry_index_of other = entry_index_of address ->
     tag_of other <> tag_of address ->
     l1_hit c' other = false) /\
  (forall other,
     entry_index_of other <> entry_index_of address ->
     l1_hit c' other = l1_hit c other).
Proof.
  intros Hwf c'.
  pose proof (l1_insert_lookup c address write_data ewa ewd status Hwf) as Hentry.
  fold c' in Hentry. pose proof (l1_tag_bound address) as Htag.
  split_and!.
  - unfold l1_hit. rewrite Hentry. unfold valid, entry_tag. cbn [v_d_tag].
    rewrite l1_fill_valid, l1_fill_tag by lia. apply Z.eqb_refl.
  - intros other Hi Ht. unfold l1_hit. rewrite Hi, Hentry.
    unfold valid, entry_tag. cbn [v_d_tag].
    rewrite l1_fill_valid, l1_fill_tag by lia.
    apply Z.eqb_neq. congruence.
  - intros other Hi. unfold l1_hit, c'. rewrite l1_insert_cache.
    rewrite list_lookup_total_insert_ne; [reflexivity|].
    pose proof (l1_entry_index_bound other).
    pose proof (l1_entry_index_bound address). lia.
Qed.

Lemma X7_witness :
  l1_hit Scenario.l1_installed 0x12340040 = true.
Proof.
  refine (proj1 (X7_l1_insertion_replaces_its_index L1.l1_power_on 0x12340040
                   (Scenario.line_of 7) 0 (Scenario.line_of 0) 0 _)).
  exact l1_power_on_wf.
Defined.

(** X8: a line that is inserted and only read is clean: however it is
    accessed without write-enable, the next insertion at its index
    reports no write-back and leaves the caller's write-back outputs
    alone. *)
Theorem X8_l1_unwritten_line_is_not_written_back
    c (address : Z) (write_data : list Z) (ewa : Z) (ewd : list Z) (status : Z)
    (read_address write_word control read_data status' : Z)
    (address' : Z) (write_data' : list Z) (ewa' : Z) (ewd' : list Z) (status'' : Z) :
  l1_wf c ->
  test control WRITE_ENABLE_MASK = false ->
  entry_index_of address' = entry_index_of address ->
  let c1 := i_cache (l1_insert_line c address write_data ewa ewd status) in
  let c2 := a_cache (l1_cache_access c1 read_address write_word control
                       read_data status') in
  let r := l1_insert_line c2 address' write_data' ewa' ewd' status'' in
  status_bit (i_status r) = false /\
  i_evicted_writeback_address r = ewa' /\
  i_evicted_writeback_data r = ewd'.
Proof.
  intros Hwf Hctl Hi c1 c2 r.
  assert (Hc2 : c2 = c1).
  { unfold c2. destruct (l1_hit c1 read_address) eqn:Hhit.
    - rewrite l1_access_hit by assumption. cbn [a_cache]. rewrite Hctl. reflexivity.
    - rewrite l1_access_miss by assumption. reflexivity. }
  pose proof (l1_insert_lookup c address write_data ewa ewd status Hwf) as Hentry.
  fold c1 in Hentry. pose proof (l1_tag_bound address) as Htag.
  assert (Hclean : valid (c2 !!! Z.to_nat (entry_index_of address'))
                   && dirty (c2 !!! Z.to_nat (entry_index_of address')) = false).
  { rewrite Hc2, Hi, Hentry. unfold valid, dirty. cbn [v_d_tag].
    rewrite l1_fill_clean by lia. apply andb_false_r. }
  pose proof (l1_insert_outputs c2 address' write_data' ewa' ewd' status'') as Hout.
  cbv zeta in Hout. rewrite Hclean in Hout. injection Hout as H1 H2.
  split_and!; try assumption.
  unfold r. rewrite l1_insert_status. exact Hclean.
Qed.

Lemma X8_witness :
  let c2 := a_cache (l1_cache_access Scenario.l1_installed 0x12340048 0
                       READ_ENABLE_MASK 0 0) in
  status_bit (i_status (l1_insert_line c2 0x56780040 (Scenario.line_of 8) 0
                          (Scenario.line_of 0) 0)) = false.
Proof.
  refine (proj1 (X8_l1_unwritten_line_is_not_written_back L1.l1_power_on
            0x12340040 (Scenario.line_of 7) 0 (Scenario.line_of 0) 0
            0x12340048 0 READ_ENABLE_MASK 0 0
            0x56780040 (Scenario.line_of 8) 0 (Scenario.line_of 0) 0 _ _ _)).
  - exact l1_power_on_wf.
  - reflexivity.
  - reflexivity.
Defined.

End L1_more.

(** * Further properties: write-back addresses and the status byte *)

Section Writeback_address.

Lemma lor_shifted (hi lo k : Z) :
  0 <= k -> 0 <= lo < 2 ^ k -> Z.lor (Z.shiftl hi k) lo = hi * 2 ^ k + lo.
Proof.
  intros Hk Hlo.
  assert (Hdisjoint : Z.land (Z.shiftl hi k) lo = 0).
  { apply Z.bits_inj'. intros n Hn. rewrite Z.land_spec, Z.bits_0.
    destruct (Z.lt_ge_cases n k).
    - rewrite Z.shiftl_spec_low by lia. reflexivity.
    - rewrite (testbit_high lo k n) by lia. apply andb_false_r. }
  rewrite <- Z.lxor_lor, <- Z.add_nocarry_lxor by assumption.
  rewrite Z.shiftl_mul_pow2 by lia. reflexivity.
Qed.

(** A tag and an index put together the way [l1_insert_line] builds the
    write-back address decode to that tag and that index. *)
Lemma l1_rebuilt_address (tag index : Z) :
  0 <= tag < 2 ^ 16 -> 0 <= index < 2 ^ 10 ->
  let x := Z.lor (Z.shiftl tag L1.L1_ADDRESS_TAG_SHIFT)
                 (Z.shiftl index L1.L1_ADDRESS_INDEX_SHIFT) in
  L1.tag_of x = tag /\ L1.entry_index_of x = index /\
  x mod BYTES_PER_CACHE_LINE = 0 /\ 0 <= x < 2 ^ 32.
Proof.
  intros Ht Hi x.
  assert (Hx : x = tag * 65536 + index * 64).
  { unfold x, L1.L1_ADDRESS_TAG_SHIFT, L1.L1_ADDRESS_INDEX_SHIFT.
    rewrite (Z.shiftl_mul_pow2 index 6) by lia.
    rewrite lor_shifted by lia. reflexivity. }
  destruct (l1_fields x) as (-> & -> & _). clearbody x. subst x.
  unfold BYTES_PER_CACHE_LINE.
  change (2 ^ 16) with 65536 in *. change (2 ^ 10) with 1024 in *.
  change (2 ^ 6) with 64. change (2 ^ 32) with 4294967296.
  assert (Hq : (tag * 65536 + index * 64) / 65536 = tag)
    by (symmetry; apply (Z.div_unique _ _ _ (index * 64)); lia).
  assert (Hq' : (tag * 65536 + index * 64) / 64 = tag * 1024 + index)
    by (symmetry; apply (Z.div_unique _ _ _ 0); lia).
  rewrite Hq, Hq'. split_and!.
  - apply Z.mod_small. lia.
  - symmetry. apply (Z.mod_unique _ _ tag); lia.
  - symmetry. apply (Z.mod_unique _ _ (tag * 1024 + index)); lia.
  - lia.
  - lia.
Qed.

Lemma l2_rebuilt_address (tag index : Z) :
  0 <= tag < 2 ^ 14 -> 0 <= index < 2 ^ 12 ->
  let x := Z.lor (Z.shiftl tag L2.L2_ADDRESS_TAG_SHIFT)
                 (Z.shiftl index L2.L2_ADDRESS_INDEX_SHIFT) in
  L2.tag_of x = tag /\ L2.set_index_of x = index /\
  x mod BYTES_PER_CACHE_LINE = 0 /\ 0 <= x < 2 ^ 32.
Proof.
  intros Ht Hi x.
  assert (Hx : x = tag * 262144 + index * 64).
  { unfold x, L2.L2_ADDRESS_TAG_SHIFT, L2.L2_ADDRESS_INDEX_SHIFT.
    rewrite (Z.shiftl_mul_pow2 index 6) by lia.
    rewrite lor_shifted by lia. reflexivity. }
  destruct (l2_fields x) as (-> & ->). clearbody x. subst x.
  unfold BYTES_PER_CACHE_LINE.
  change (2 ^ 18) with 262144. change (2 ^ 14) with 16384 in *.
  change (2 ^ 12) with 4096 in *.
  change (2 ^ 6) with 64. change (2 ^ 32) with 4294967296.
  assert (Hq : (tag * 262144 + index * 64) / 262144 = tag)
    by (symmetry; apply (Z.div_unique _ _ _ (index * 64)); lia).
  assert (Hq' : (tag * 262144 + index * 64) / 64 = tag * 4096 + index)
    by (symmetry; apply (Z.div_unique _ _ _ 0); lia).
  rewrite Hq, Hq'. split_and!.
  - apply Z.mod_small. lia.
  - symmetry. apply (Z.mod_unique _ _ tag); lia.
  - symmetry. apply (Z.mod_unique _ _ (tag * 4096 + index)); lia.
  - lia.
  - lia.
Qed.

Lemma l1_entry_tag_bound (e : L1.L1_CACHE_ENTRY) : 0 <= L1.entry_tag e < 2 ^ 16.
Proof.
  unfold L1.entry_tag, L1.L1_ENTRY_TAG_MASK. change 65535 with (Z.ones 16).
  rewrite Z.land_ones by lia. apply Z.mod_pos_bound. lia.
Qed.

Lemma l2_entry_tag_bound (e : L2.L2_CACHE_ENTRY) : 0 <= L2.entry_tag e < 2 ^ 14.
Proof.
  unfold L2.entry_tag, L2.L2_ENTRY_TAG_MASK. change 16383 with (Z.ones 14).
  rewrite Z.land_ones by lia. apply Z.mod_pos_bound. lia.
Qed.

(** X9: the write-back address an insertion emits is a 32-bit,
    line-aligned address that decodes, at the cache that emitted it, to
    the tag of the evicted entry and to the index (L1) or set index (L2)
    of the inserted address: the evicted line goes back where it came
    from, and it collided with the new one. *)
Theorem X9_writeback_address_names_the_evicted_line
    (c1 : list L1.L1_CACHE_ENTRY) (c2 : list L2.L2_CACHE_SET)
    (address : Z) (write_data : list Z) (ewa : Z) (ewd : list Z) (status : Z) :
  (let e := c1 !!! Z.to_nat (L1.entry_index_of address) in
   let r := L1.l1_insert_line c1 address write_data ewa ewd status in
   status_bit (L1.i_status r) = true ->
   L1.tag_of (L1.i_evicted_writeback_address r) = L1.entry_tag e /\
   L1.entry_index_of (L1.i_evicted_writeback_address r) = L1.entry_index_of address /\
   L1.i_evicted_writeback_address r mod BYTES_PER_CACHE_LINE = 0 /\
   0 <= L1.i_evicted_writeback_address r < 2 ^ 32)
  /\
  (let set := Z.to_nat (L2.set_index_of address) in
   let e := L2.entry_at c2 set (L2.victim (c2 !!! set)) in
   let r := L2.l2_insert_line c2 address write_data ewa ewd status in
   status_bit (L2.i_status r) = true ->
   L2.tag_of (L2.i_evicted_writeback_address r) = L2.entry_tag e /\
   L2.set_index_of (L2.i_evicted_writeback_address r) = L2.set_index_of address /\
   L2.i_evicted_writeback_address r mod BYTES_PER_CACHE_LINE = 0 /\
   0 <= L2.i_evicted_writeback_address r < 2 ^ 32).
Proof.
  split.
  - intros e r Hst. unfold r in Hst. rewrite l1_insert_status in Hst.
    pose proof (l1_insert_outputs c1 address write_data ewa ewd status) as Hout.
    cbv zeta in Hout. rewrite Hst in Hout. injection Hout as H1 _.
    fold r e in H1. rewrite H1.
    apply l1_rebuilt_address.
    + apply l1_entry_tag_bound.
    + pose proof (l1_entry_index_bound address). change (2 ^ 10) with 1024. lia.
  - intros set e r Hst. unfold r in Hst. rewrite l2_insert_status in Hst.
    pose proof (l2_insert_outputs c2 address write_data ewa ewd status) as Hout.
    cbv zeta in Hout. rewrite Hst in Hout. injection Hout as H1 _.
    fold set e r in H1. rewrite H1.
    apply l2_rebuilt_address.
    + apply l2_entry_tag_bound.
    + pose proof (l2_set_index_bound address). change (2 ^ 12) with 4096. lia.
Qed.

Lemma X9_witness :
  let c := L1.a_cache (L1.l1_cache_access Scenario.l1_installed 0x12340048 99
                         WRITE_ENABLE_MASK 0 0) in
  let r := L1.l1_insert_line c 0x56780040 (Scenario.line_of 8) 0
             (Scenario.line_of 0) 0 in
  L1.entry_index_of (L1.i_evicted_writeback_address r)
  = L1.entry_index_of 0x56780040.
Proof.
  refine (proj1 (proj2 (proj1 (X9_writeback_address_names_the_evicted_line
            (L1.a_cache (L1.l1_cache_access Scenario.l1_installed 0x12340048 99
                           WRITE_ENABLE_MASK 0 0))
            L2.l2_power_on 0x56780040 (Scenario.line_of 8) 0
            (Scenario.line_of 0) 0) _))).
  vm_compute. reflexivity.
Defined.

End Writeback_address.

Section Status_byte.

Lemma status_upper_bits (status : Z) :
  0 <= status < 2 ^ 8 ->
  Z.shiftr (status_set status) 1 = Z.shiftr status 1 /\
  Z.shiftr (status_clear status) 1 = Z.shiftr status 1 /\
  0 <= status_set status < 2 ^ 8 /\ 0 <= status_clear status < 2 ^ 8.
Proof.
  intros Hs. unfold status_set, status_clear, wrap8. split_and!.
  - apply Z.bits_inj'. intros n Hn. bits_norm.
    change (Z.testbit 1 (n + 1)) with (Z.testbit (2 ^ 0) (n + 1)).
    rewrite Z.pow2_bits_eqb by lia. bits_cases.
    rewrite (testbit_high status 8) by lia. reflexivity.
  - apply Z.bits_inj'. intros n Hn. bits_norm.
    change (Z.testbit 1 (n + 1)) with (Z.testbit (2 ^ 0) (n + 1)).
    rewrite Z.pow2_bits_eqb by lia. bits_cases.
    rewrite (testbit_high status 8) by lia. reflexivity.
  - apply Z.mod_pos_bound. lia.
  - apply Z.mod_pos_bound. lia.
  - apply Z.mod_pos_bound. lia.
  - apply Z.mod_pos_bound. lia.
Qed.

(** X10: the four procedures that take a status byte change its lowest
    bit only: bits 1 to 7 of the caller's byte come back as they were. *)
Theorem X10_only_the_low_status_bit_changes
    (c1 : list L1.L1_CACHE_ENTRY) (c2 : list L2.L2_CACHE_SET)
    (address write_word : Z) (write_line : list Z) (control read_word : Z)
    (read_line : list Z) (ewa : Z) (ewd : list Z) (status : Z) :
  0 <= status < 2 ^ 8 ->
  Z.shiftr (L1.a_status (L1.l1_cache_access c1 address write_word control
                           read_word status)) 1 = Z.shiftr status 1 /\
  Z.shiftr (L1.i_status (L1.l1_insert_line c1 address write_line ewa ewd status)) 1
    = Z.shiftr status 1 /\
  Z.shiftr (L2.a_status (L2.l2_cache_access c2 address write_line control
                           read_line status)) 1 = Z.shiftr status 1 /\
  Z.shiftr (L2.i_status (L2.l2_insert_line c2 address write_line ewa ewd status)) 1
    = Z.shiftr status 1.
Proof.
  intros Hs. destruct (status_upper_bits status Hs) as (Hset & Hclear & _).
  split_and!.
  - destruct (L1.l1_hit c1 address) eqn:H.
    + rewrite l1_access_hit by assumption. exact Hset.
    + rewrite l1_access_miss by assumption. exact Hclear.
  - unfold L1.l1_insert_line. cbv zeta.
    destruct (test _ L1.L1_VBIT_MASK && test _ L1.L1_DIRTYBIT_MASK);
      [exact Hset | exact Hclear].
  - destruct (L2.resident c2 address) eqn:H.
    + destruct (l2_access_hit c2 address write_line control read_line status H)
        as (j & _ & _ & _ & ->). exact Hset.
    + rewrite l2_access_miss by assumption. exact Hclear.
  - unfold L2.l2_insert_line. cbv zeta.
    destruct (L2.scan _ _ _ _ _ _); [exact Hclear|].
    destruct (test _ L2.L2_DIRTYBIT_MASK); [exact Hset | exact Hclear].
Qed.

Lemma X10_witness :
  Z.shiftr (L2.i_status (L2.l2_insert_line L2.l2_power_on 0x40
                           (Scenario.line_of 5) 0 (Scenario.line_of 0) 0xab)) 1
  = Z.shiftr 0xab 1.
Proof.
  refine (proj2 (proj2 (proj2 (X10_only_the_low_status_bit_changes
            L1.l1_power_on L2.l2_power_on 0x40 0 (Scenario.line_of 5) 0 0 []
            0 (Scenario.line_of 0) 0xab _)))).
  lia.
Defined.

End Status_byte.

(** * Further properties: the L2 reference bits *)

Section L2_reference_bits.

Import L2.

Implicit Types (c : list L2_CACHE_SET).

Ltac l2_bit_fields :=
  unfold L2_VBIT_MASK, L2_RBIT_MASK, L2_DIRTYBIT_MASK, wrap32;
  change (Z.shiftl 1 31 mod 2 ^ 32) with (2 ^ 31);
  change (Z.shiftl 1 30) with (2 ^ 30);
  change (Z.shiftl 1 29) with (2 ^ 29);
  rewrite ?test_pow2 by lia; bits_norm; bits_cases.

Lemma l2_clear_r_referenced v :
  test (Z.land v (wrap32 (Z.lnot L2_RBIT_MASK))) L2_RBIT_MASK = false.
Proof. l2_bit_fields. Qed.

Lemma l2_clear_r_dirty v :
  test (Z.land v (wrap32 (Z.lnot L2_RBIT_MASK))) L2_DIRTYBIT_MASK
  = test v L2_DIRTYBIT_MASK.
Proof. l2_bit_fields. Qed.

Lemma l2_set_r_dirty v :
  test (Z.lor v L2_RBIT_MASK) L2_DIRTYBIT_MASK = test v L2_DIRTYBIT_MASK.
Proof. l2_bit_fields. Qed.

Lemma for_sets_line_data f n set c set' line' :
  cache_line (entry_at (for_sets f n set c) set' line')
  = cache_line (entry_at c set' line').
Proof.
  destruct (decide (in_array c set' line')) as [Hin|Hout].
  - rewrite for_sets_entry by assumption. case_decide; reflexivity.
  - rewrite !entry_at_outside; [reflexivity|assumption|].
    rewrite for_sets_in_array. assumption.
Qed.

Lemma find_line_ext n line (s s' : L2_CACHE_SET) tag :
  (forall j, matches s' tag j = matches s tag j) ->
  find_line n line s' tag = find_line n line s tag.
Proof.
  intros H. revert line. induction n as [|n IH]; intros line; simpl;
    [reflexivity|].
  rewrite H, IH. reflexivity.
Qed.

(** Residency depends on the valid bits and the tags of the set only. *)
Lemma resident_ext c c' address :
  (forall line,
     valid (entry_at c' (Z.to_nat (set_index_of address)) line)
       = valid (entry_at c (Z.to_nat (set_index_of address)) line) /\
     entry_tag (entry_at c' (Z.to_nat (set_index_of address)) line)
       = entry_tag (entry_at c (Z.to_nat (set_index_of address)) line)) ->
  resident c' address = resident c address.
Proof.
  intros H. unfold resident. f_equal. f_equal. apply find_line_ext.
  intros j. rewrite !matches_entry_at.
  destruct (H j) as [-> ->]. reflexivity.
Qed.

Lemma l2_clear_r_bits_unreferenced c address line :
  (line < L2_LINES_PER_SET)%nat ->
  referenced (entry_at (l2_clear_r_bits c) (Z.to_nat (set_index_of address)) line)
  = false.
Proof.
  intros Hline. pose proof (l2_set_index_bound address) as Hb.
  set (set := Z.to_nat (set_index_of address)).
  destruct (decide (in_array c set line)) as [Hin|Hout].
  - unfold l2_clear_r_bits. rewrite for_sets_entry by assumption.
    change (Z.to_nat L2_NUM_CACHE_SETS) with 4096%nat.
    case_decide as H; [apply l2_clear_r_referenced|].
    exfalso. apply H. unfold set. lia.
  - rewrite entry_at_outside; [reflexivity|].
    unfold l2_clear_r_bits. rewrite for_sets_in_array. assumption.
Qed.

Lemma l2_clear_r_bits_dirty c set line :
  dirty (entry_at (l2_clear_r_bits c) set line) = dirty (entry_at c set line).
Proof.
  unfold l2_clear_r_bits, dirty.
  destruct (for_sets_status_word (fun v => Z.land v (wrap32 (Z.lnot L2_RBIT_MASK)))
              (Z.to_nat L2_NUM_CACHE_SETS) 0 c set line) as [-> | ->];
    [reflexivity | apply l2_clear_r_dirty].
Qed.

(** X11: [l2_clear_r_bits] clears the reference bit of every way of
    every set an address can select and changes nothing else: valid bit,
    dirty bit, tag and line data of every entry are as before, so every
    address hits or misses as before. *)
Theorem X11_l2_clear_r_bits_clears_reference_bits_only c :
  let c' := l2_clear_r_bits c in
  (forall address line, (line < L2_LINES_PER_SET)%nat ->
     referenced (entry_at c' (Z.to_nat (set_index_of address)) line) = false) /\
  (forall set line,
     valid (entry_at c' set line) = valid (entry_at c set line) /\
     dirty (entry_at c' set line) = dirty (entry_at c set line) /\
     entry_tag (entry_at c' set line) = entry_tag (entry_at c set line) /\
     cache_line (entry_at c' set line) = cache_line (entry_at c set line)) /\
  (forall address, resident c' address = resident c address).
Proof.
  cbv zeta. split_and!.
  - intros. apply l2_clear_r_bits_unreferenced. assumption.
  - intros. split_and!.
    + apply l2_clear_r_bits_valid.
    + apply l2_clear_r_bits_dirty.
    + apply l2_clear_r_bits_tag.
    + apply for_sets_line_data.
  - intros. apply resident_ext. intros line. split.
    + apply l2_clear_r_bits_valid.
    + apply l2_clear_r_bits_tag.
Qed.

Lemma X11_witness :
  referenced (entry_at (l2_clear_r_bits Scenario.way_2_unreferenced)
                (Z.to_nat (set_index_of (Scenario.l2_address 0 0))) 1%nat) = false.
Proof.
  refine (proj1 (X11_l2_clear_r_bits_clears_reference_bits_only
                   Scenario.way_2_unreferenced) (Scenario.l2_address 0 0) 1%nat _).
  unfold L2_LINES_PER_SET. lia.
Defined.

(** X12: what an access can change.  No valid bit and no tag changes, so
    every address hits or misses afterwards as before; reference and
    dirty bits are only ever set; an entry the search loop does not
    match is untouched; and without write-enable no dirty bit and no
    line data changes: a read hit sets one reference bit and nothing
    else. *)
Theorem X12_l2_access_frame
    c (address : Z) (write_data : list Z) (control : Z)
    (read_data : list Z) (status : Z) :
  let c' := a_cache (l2_cache_access c address write_data control read_data status) in
  (forall set line,
     valid (entry_at c' set line) = valid (entry_at c set line) /\
     entry_tag (entry_at c' set line) = entry_tag (entry_at c set line) /\
     (referenced (entry_at c set line) = true ->
      referenced (entry_at c' set line) = true) /\
     (dirty (entry_at c set line) = true -> dirty (entry_at c' set line) = true)) /\
  (forall other, resident c' other = resident c other) /\
  (forall set line,
     set <> Z.to_nat (set_index_of address) \/
     matches (c !!! Z.to_nat (set_index_of address)) (tag_of address) line = false ->
     entry_at c' set line = entry_at c set line) /\
  (test control WRITE_ENABLE_MASK = false ->
   forall set line,
     dirty (entry_at c' set line) = dirty (entry_at c set line) /\
     cache_line (entry_at c' set line) = cache_line (entry_at c set line)).
Proof.
  intros c'.
  assert (Hvt : forall set line,
            valid (entry_at c' set line) = valid (entry_at c set line) /\
            entry_tag (entry_at c' set line) = entry_tag (entry_at c set line))
    by (intros; apply l2_access_valid_tag).
  split_and!.
  - intros set line. destruct (Hvt set line) as [Hv Ht].
    split_and!; try assumption; unfold c'.
    + destruct (resident c address) eqn:H.
      * destruct (l2_access_hit c address write_data control read_data status H)
          as (j & _ & _ & _ & ->). cbn [a_cache].
        rewrite entry_at_set_entry. case_decide as Hpos; [|tauto].
        destruct Hpos as (<- & <- & _). intros _. unfold referenced.
        destruct (test control WRITE_ENABLE_MASK); cbn [v_r_d_tag];
          rewrite ?l2_set_d_referenced; apply l2_set_r_referenced.
      * rewrite l2_access_miss by assumption. tauto.
    + destruct (resident c address) eqn:H.
      * destruct (l2_access_hit c address write_data control read_data status H)
          as (j & _ & _ & _ & ->). cbn [a_cache].
        rewrite entry_at_set_entry. case_decide as Hpos; [|tauto].
        destruct Hpos as (<- & <- & _). unfold dirty.
        destruct (test control WRITE_ENABLE_MASK); cbn [v_r_d_tag].
        -- intros _. apply l2_set_d_dirty.
        -- rewrite l2_set_r_dirty. tauto.
      * rewrite l2_access_miss by assumption. tauto.
  - intros other. apply resident_ext. intros line. apply Hvt.
  - intros set line Hne. unfold c'. destruct (resident c address) eqn:H.
    + destruct (l2_access_hit c address write_data control read_data status H)
        as (j & _ & Hm & _ & ->). cbn [a_cache].
      apply entry_at_set_entry_ne.
      destruct Hne as [Hne | Hne]; [left; congruence|].
      right. intros <-. rewrite Hm in Hne. discriminate Hne.
    + rewrite l2_access_miss by assumption. reflexivity.
  - intros Hw set line. unfold c'. destruct (resident c address) eqn:H.
    + destruct (l2_access_hit c address write_data control read_data status H)
        as (j & _ & _ & _ & ->). cbn [a_cache]. rewrite Hw.
      rewrite entry_at_set_entry. case_decide as Hpos; [|tauto].
      destruct Hpos as (<- & <- & _). unfold dirty. cbn [v_r_d_tag cache_line].
      rewrite l2_set_r_dirty. tauto.
    + rewrite l2_access_miss by assumption. tauto.
Qed.

Lemma X12_witness :
  cache_line (entry_at (a_cache (Scenario.l2_read Scenario.four_clean_lines
                                   (Scenario.l2_address 2 0))) 0 2)
  = cache_line (entry_at Scenario.four_clean_lines 0 2).
Proof.
  refine (proj2 (proj2 (proj2 (proj2 (X12_l2_access_frame
            Scenario.four_clean_lines (Scenario.l2_address 2 0) []
            READ_ENABLE_MASK (Scenario.line_of 0) 0))) _ 0%nat 2%nat)).
  reflexivity.
Defined.

End L2_reference_bits.

(** * Further properties: replacement in L2 *)

Section L2_replacement.

Import L2.

Implicit Types (c : list L2_CACHE_SET).

Lemma tier_rank_bits (v : Z) :
  tier_rank v
  = match test v L2_RBIT_MASK, test v L2_DIRTYBIT_MASK with
    | false, false => 0%nat
    | false, true => 1%nat
    | true, false => 2%nat
    | true, true => 3%nat
    end.
Proof.
  unfold tier_rank, r0_d0, r0_d1, r1_d0.
  destruct (test v L2_RBIT_MASK), (test v L2_DIRTYBIT_MASK); reflexivity.
Qed.

(** X13: the order of preference of [l2_insert_line].  If some way of
    the set is invalid the victim is the first invalid way.  In a full
    set no way is in a better tier than the victim, the tiers being
    [r=0,d=0], then [r=0,d=1], then [r=1,d=0], then [r=1,d=1]; and when
    every way has [r=1,d=1] the victim is way 0. *)
Theorem X13_l2_victim_follows_the_order_of_preference c (address : Z) :
  let set := Z.to_nat (set_index_of address) in
  let way := victim (c !!! set) in
  let rank line := tier_rank (v_r_d_tag (entry_at c set line)) in
  (forall line, (line < L2_LINES_PER_SET)%nat ->
     valid (entry_at c set line) = false ->
     valid (entry_at c set way) = false /\ (way <= line)%nat /\
     forall j, (j < way)%nat -> valid (entry_at c set j) = true) /\
  ((forall line, (line < L2_LINES_PER_SET)%nat ->
      valid (entry_at c set line) = true) ->
   (forall line, (line < L2_LINES_PER_SET)%nat -> (rank way <= rank line)%nat) /\
   (rank way = 3%nat -> way = 0%nat)).
Proof.
  intros set way rank. unfold way, rank, entry_at.
  generalize (c !!! set). intros s. split.
  - intros line Hline Hinv.
    destruct (victim_spec s) as [(Hv & _ & Hbefore & _) | (Hall & _)].
    + split_and!; try assumption.
      destruct (decide (victim s <= line)%nat) as [|Hgt]; [assumption|].
      rewrite Hbefore in Hinv by lia. discriminate Hinv.
    + rewrite Hall in Hinv by assumption. discriminate Hinv.
  - intros Hall.
    destruct (victim_in_full_set s Hall) as (Hbest & _ & Hzero).
    split; assumption.
Qed.

Lemma X13_witness :
  (tier_rank (v_r_d_tag (entry_at Scenario.way_2_unreferenced
     (Z.to_nat (set_index_of (Scenario.l2_address 4 0)))
     (victim (Scenario.way_2_unreferenced
                !!! Z.to_nat (set_index_of (Scenario.l2_address 4 0))))))
   <= tier_rank (v_r_d_tag (entry_at Scenario.way_2_unreferenced
        (Z.to_nat (set_index_of (Scenario.l2_address 4 0))) 0)))%nat.
Proof.
  refine (proj1 (proj2 (X13_l2_victim_follows_the_order_of_preference
            Scenario.way_2_unreferenced (Scenario.l2_address 4 0)) _) 0%nat _).
  - intros j Hj. unfold L2_LINES_PER_SET in Hj.
    destruct j as [|[|[|[|j]]]]; [vm_compute; reflexivity .. | lia].
  - unfold L2_LINES_PER_SET. lia.
Defined.

(** A valid, referenced line is not the victim as long as some way of
    the set is invalid or unreferenced. *)
Lemma referenced_line_is_not_victim c (set line other : nat) :
  valid (entry_at c set line) = true ->
  referenced (entry_at c set line) = true ->
  (other < L2_LINES_PER_SET)%nat ->
  valid (entry_at c set other) = false \/ referenced (entry_at c set other) = false ->
  victim (c !!! set) <> line.
Proof.
  unfold entry_at. generalize (c !!! set). intros s Hv Hr Hother Hfree Heq.
  destruct (victim_spec s) as [(Hinv & _) | (Hall & Hrange & _)].
  - rewrite Heq, Hv in Hinv. discriminate Hinv.
  - destruct Hfree as [Hfree | Hfree];
      [rewrite Hall in Hfree by assumption; discriminate Hfree|].
    destruct (victim_in_full_set s Hall) as (Hbest & _).
    specialize (Hbest other Hother). cbv zeta in Hbest.
    rewrite Heq, !tier_rank_bits in Hbest.
    unfold referenced in Hr, Hfree. rewrite Hr, Hfree in Hbest.
    destruct (test _ L2_DIRTYBIT_MASK), (test _ L2_DIRTYBIT_MASK) in Hbest; lia.
Qed.

Lemma l2_access_hit_at c address write_data control read_data status (j : nat) :
  find_line L2_LINES_PER_SET 0 (c !!! Z.to_nat (set_index_of address))
    (tag_of address) = Z.of_nat j ->
  let set := Z.to_nat (set_index_of address) in
  let e := entry_at c set j in
  (j < L2_LINES_PER_SET)%nat /\
  valid e = true /\ entry_tag e = tag_of address /\
  a_cache (l2_cache_access c address write_data control read_data status)
  = set_entry c set j
      (if test control WRITE_ENABLE_MASK
       then {| v_r_d_tag :=
                 Z.lor (Z.lor (v_r_d_tag e) L2_RBIT_MASK) L2_DIRTYBIT_MASK;
               cache_line := copy_line write_data (cache_line e) |}
       else {| v_r_d_tag := Z.lor (v_r_d_tag e) L2_RBIT_MASK;
               cache_line := cache_line e |}).
Proof.
  intros Hj set e.
  destruct (find_line_spec L2_LINES_PER_SET 0 (c !!! set) (tag_of address))
    as [[Hnone _] | (j' & Hj' & Hrange & Hm & _)].
  - fold set in Hj. lia.
  - fold set in Hj. assert (j' = j) by lia. subst j'.
    rewrite matches_entry_at in Hm. apply andb_true_iff in Hm as [Hv Ht].
    apply Z.eqb_eq in Ht. split_and!; try assumption; try lia.
    unfold l2_cache_access. cbv zeta. fold set. rewrite Hj.
    replace (Z.of_nat j =? -1) with false by (symmetry; apply Z.eqb_neq; lia).
    rewrite Nat2Z.id. cbn [a_cache].
    destruct (test control WRITE_ENABLE_MASK); reflexivity.
Qed.

Lemma resident_find_line c address :
  resident c address = true ->
  exists j, find_line L2_LINES_PER_SET 0 (c !!! Z.to_nat (set_index_of address))
              (tag_of address) = Z.of_nat j.
Proof.
  unfold resident. intros H. apply negb_true_iff, Z.eqb_neq in H.
  destruct (find_line_spec L2_LINES_PER_SET 0
              (c !!! Z.to_nat (set_index_of address)) (tag_of address))
    as [[Hnone _] | (j & Hj & _)]; [contradiction|].
  exists j. exact Hj.
Qed.

(** The state of the matched line after a hit. *)
Lemma l2_hit_entry c address write_data control read_data status (j : nat) :
  find_line L2_LINES_PER_SET 0 (c !!! Z.to_nat (set_index_of address))
    (tag_of address) = Z.of_nat j ->
  let set := Z.to_nat (set_index_of address) in
  let c1 := a_cache (l2_cache_access c address write_data control read_data status) in
  valid (entry_at c1 set j) = true /\
  referenced (entry_at c1 set j) = true /\
  entry_tag (entry_at c1 set j) = tag_of address /\
  (forall line, line <> j -> entry_at c1 set line = entry_at c set line).
Proof.
  intros Hj set c1.
  destruct (l2_access_hit_at c address write_data control read_data status j Hj)
    as (Hrange & Hv & Ht & Heq). fold set c1 in Hv, Ht, Heq.
  pose proof (valid_in_array _ _ _ Hv) as Hin.
  split_and!.
  - rewrite Heq, entry_at_set_entry_eq by assumption. unfold valid in *.
    destruct (test control WRITE_ENABLE_MASK); cbn [v_r_d_tag];
      rewrite ?l2_set_d_valid, l2_set_r_valid; exact Hv.
  - rewrite Heq, entry_at_set_entry_eq by assumption. unfold referenced.
    destruct (test control WRITE_ENABLE_MASK); cbn [v_r_d_tag];
      rewrite ?l2_set_d_referenced; apply l2_set_r_referenced.
  - rewrite Heq, entry_at_set_entry_eq by assumption. unfold entry_tag in *.
    destruct (test control WRITE_ENABLE_MASK); cbn [v_r_d_tag];
      rewrite ?l2_set_d_tag, l2_set_r_tag; exact Ht.
  - intros line Hne. rewrite Heq. apply entry_at_set_entry_ne. right. congruence.
Qed.

(** X14: a line that has just been hit is not the next one evicted as
    long as the set an insertion goes to has a way that is invalid or
    unreferenced: the address that was accessed is still resident after
    the insertion. *)
Theorem X14_l2_touched_line_survives_the_next_insertion
    c (address : Z) (write_data : list Z) (control : Z)
    (read_data : list Z) (status : Z)
    (address' : Z) (write_data' : list Z) (ewa : Z) (ewd : list Z) (status' : Z)
    (other : nat) :
  l2_wf c ->
  resident c address = true ->
  let c1 := a_cache (l2_cache_access c address write_data control read_data status) in
  let set' := Z.to_nat (set_index_of address') in
  (other < L2_LINES_PER_SET)%nat ->
  valid (entry_at c1 set' other) = false \/
  referenced (entry_at c1 set' other) = false ->
  let c2 := i_cache (l2_insert_line c1 address' write_data' ewa ewd status') in
  resident c2 address = true.
Proof.
  intros Hwf Hres c1 set' Hother Hfree c2.
  destruct (resident_find_line c address Hres) as (j & Hj).
  destruct (l2_hit_entry c address write_data control read_data status j Hj)
    as (Hv & Hr & Ht & _). fold c1 in Hv, Hr, Ht.
  set (set := Z.to_nat (set_index_of address)) in *.
  assert (Hwf1 : l2_wf c1) by (apply l2_access_wf; exact Hwf).
  assert (Hwf2 : l2_wf c2) by (apply l2_insert_wf; exact Hwf1).
  assert (Hkeep : entry_at c2 set j = entry_at c1 set j).
  { unfold c2. apply l2_insert_other. fold set'. clearbody c1.
    destruct (decide (set = set')) as [Heq|Hne]; [right | left; exact Hne].
    rewrite <- Heq in Hfree |- *. intros Hvictim. symmetry in Hvictim. revert Hvictim.
    apply (referenced_line_is_not_victim c1 set j other); assumption. }
  clearbody c2 c1.
  apply (resident_by_entry c2 address j Hwf2); fold set; rewrite Hkeep; assumption.
Qed.

Lemma X14_witness :
  resident
    (Scenario.l2_insert
       (a_cache (Scenario.l2_read Scenario.four_clean_lines (Scenario.l2_address 3 0)))
       (Scenario.l2_address 4 0) (Scenario.line_of 14))
    (Scenario.l2_address 3 0) = true.
Proof.
  refine (X14_l2_touched_line_survives_the_next_insertion
            Scenario.four_clean_lines (Scenario.l2_address 3 0) []
            READ_ENABLE_MASK (Scenario.line_of 0) 0
            (Scenario.l2_address 4 0) (Scenario.line_of 14) 0 (Scenario.line_of 0) 0
            0%nat _ _ _ _).
  - exact (reachable_wf _ _ four_clean_lines_reachable).
  - vm_compute. reflexivity.
  - unfold L2_LINES_PER_SET. lia.
  - right. vm_compute. reflexivity.
Defined.

(** X15: reference aging.  After [l2_clear_r_bits] a hit marks its line
    alone as recently used, so the insertion that follows, whatever set
    it goes to, evicts another line: the address that was accessed is
    still resident. *)
Theorem X15_l2_aging_then_touch_protects_the_line
    c (address : Z) (write_data : list Z) (control : Z)
    (read_data : list Z) (status : Z)
    (address' : Z) (write_data' : list Z) (ewa : Z) (ewd : list Z) (status' : Z) :
  l2_wf c ->
  resident c address = true ->
  let c0 := l2_clear_r_bits c in
  let c1 := a_cache (l2_cache_access c0 address write_data control read_data status) in
  let c2 := i_cache (l2_insert_line c1 address' write_data' ewa ewd status') in
  resident c2 address = true.
Proof.
  intros Hwf Hres c0 c1 c2.
  assert (Hwf0 : l2_wf c0) by (apply l2_clear_r_bits_wf; exact Hwf).
  assert (Hres0 : resident c0 address = true).
  { rewrite <- Hres. apply resident_ext. intros line. split.
    - apply l2_clear_r_bits_valid.
    - apply l2_clear_r_bits_tag. }
  destruct (resident_find_line c0 address Hres0) as (j & Hj).
  destruct (l2_hit_entry c0 address write_data control read_data status j Hj)
    as (Hv & Hr & Ht & Hrest). fold c1 in Hv, Hr, Ht, Hrest.
  set (set := Z.to_nat (set_index_of address)) in *.
  set (set' := Z.to_nat (set_index_of address')).
  assert (Hwf1 : l2_wf c1) by (apply l2_access_wf; exact Hwf0).
  assert (Hwf2 : l2_wf c2) by (apply l2_insert_wf; exact Hwf1).
  assert (Hkeep : entry_at c2 set j = entry_at c1 set j).
  { unfold c2. apply l2_insert_other. fold set'.
    destruct (decide (set = set')) as [Heq|Hne]; [right | left; exact Hne].
    rewrite <- Heq. intros Hvictim. symmetry in Hvictim. revert Hvictim.
    set (other := match j with O => 1%nat | S _ => 0%nat end).
    assert (Hother : (other < L2_LINES_PER_SET)%nat /\ other <> j)
      by (unfold other, L2_LINES_PER_SET; destruct j; lia).
    assert (Hfree : referenced (entry_at c1 set other) = false).
    { rewrite Hrest by apply Hother. unfold c0, set.
      apply l2_clear_r_bits_unreferenced, Hother. }
    clearbody c1 c0.
    apply (referenced_line_is_not_victim c1 set j other);
      try assumption; [apply Hother | right; exact Hfree]. }
  clearbody c2 c1 c0.
  apply (resident_by_entry c2 address j Hwf2); fold set; rewrite Hkeep; assumption.
Qed.

Lemma X15_witness :
  resident
    (Scenario.l2_insert
       (a_cache (Scenario.l2_read (l2_clear_r_bits Scenario.way_2_unreferenced)
                   (Scenario.l2_address 1 0)))
       (Scenario.l2_address 4 0) (Scenario.line_of 14))
    (Scenario.l2_address 1 0) = true.
Proof.
  refine (X15_l2_aging_then_touch_protects_the_line
            Scenario.way_2_unreferenced (Scenario.l2_address 1 0) []
            READ_ENABLE_MASK (Scenario.line_of 0) 0
            (Scenario.l2_address 4 0) (Scenario.line_of 14) 0 (Scenario.line_of 0) 0
            _ _).
  - exact (reachable_wf _ _ way_2_unreferenced_reachable).
  - vm_compute. reflexivity.
Defined.

End L2_replacement.

(** * Further properties: what an L2 insertion evicts *)

Section L2_eviction.

Import L2.

Implicit Types (c : list L2_CACHE_SET).

(** Tag and set index put back together give the address of the line. *)
Lemma l2_line_address address :
  0 <= address < 2 ^ 32 ->
  Z.lor (Z.shiftl (tag_of address) L2_ADDRESS_TAG_SHIFT)
        (Z.shiftl (set_index_of address) L2_ADDRESS_INDEX_SHIFT)
  = BYTES_PER_CACHE_LINE * (address / BYTES_PER_CACHE_LINE).
Proof.
  intros Ha. pose proof (l2_set_index_bound address) as Hs.
  unfold L2_ADDRESS_TAG_SHIFT, L2_ADDRESS_INDEX_SHIFT, BYTES_PER_CACHE_LINE.
  rewrite (Z.shiftl_mul_pow2 (set_index_of address) 6) by lia.
  rewrite lor_shifted by lia.
  destruct (l2_fields address) as (-> & ->).
  change (2 ^ 32) with 4294967296 in Ha.
  change (2 ^ 18) with 262144. change (2 ^ 14) with 16384.
  change (2 ^ 12) with 4096. change (2 ^ 6) with 64.
  pose proof (Z.div_mod (address / 64) 4096 ltac:(lia)).
  assert (address / 64 / 4096 = address / 262144)
    by (rewrite Z.div_div by lia; reflexivity).
  assert (0 <= address / 262144 < 16384)
    by (split; [apply Z.div_pos; lia | apply Z.div_lt_upper_bound; lia]).
  rewrite (Z.mod_small (address / 262144)) by lia. lia.
Qed.

(** X16: a line written by a hit with write-enable is dirty: when the
    next insertion into its set picks its way as the victim, the
    insertion reports a write-back, at the address of the line that was
    written and with the 16 words that were written. *)
Theorem X16_l2_written_line_is_written_back
    c (address : Z) (write_data : list Z) (control : Z)
    (read_data : list Z) (status : Z)
    (address' : Z) (write_data' : list Z) (ewa : Z) (ewd : list Z) (status' : Z) :
  l2_wf c ->
  0 <= address < 2 ^ 32 ->
  length write_data = WORDS_PER_CACHE_LINE ->
  (WORDS_PER_CACHE_LINE <= length ewd)%nat ->
  resident c address = true ->
  test control WRITE_ENABLE_MASK = true ->
  set_index_of address' = set_index_of address ->
  let set := Z.to_nat (set_index_of address) in
  let c1 := a_cache (l2_cache_access c address write_data control read_data status) in
  victim (c1 !!! set)
    = Z.to_nat (find_line L2_LINES_PER_SET 0 (c !!! set) (tag_of address)) ->
  let r := l2_insert_line c1 address' write_data' ewa ewd status' in
  status_bit (i_status r) = true /\
  i_evicted_writeback_address r
    = BYTES_PER_CACHE_LINE * (address / BYTES_PER_CACHE_LINE) /\
  take WORDS_PER_CACHE_LINE (i_evicted_writeback_data r) = write_data.
Proof.
  intros Hwf Ha Hlen Hewd Hres Hw Hset set c1 Hvictim r.
  destruct (resident_find_line c address Hres) as (j & Hj).
  fold set in Hj. rewrite Hj, Nat2Z.id in Hvictim.
  destruct (l2_access_hit_at c address write_data control read_data status j Hj)
    as (Hrange & Hv & Ht & Heq). fold set c1 in Hv, Ht, Heq.
  rewrite Hw in Heq.
  pose proof (valid_in_array _ _ _ Hv) as Hin.
  assert (Hentry : entry_at c1 set j
            = {| v_r_d_tag := Z.lor (Z.lor (v_r_d_tag (entry_at c set j)) L2_RBIT_MASK)
                                    L2_DIRTYBIT_MASK;
                 cache_line := write_data |}).
  { rewrite Heq, entry_at_set_entry_eq by assumption. f_equal.
    apply copy_line_exact; [assumption|]. apply l2_wf_line_length; assumption. }
  assert (Hvd : valid (entry_at c1 set j) && dirty (entry_at c1 set j) = true).
  { rewrite Hentry. unfold valid, dirty in *. cbn [v_r_d_tag].
    rewrite l2_set_d_valid, l2_set_r_valid, l2_set_d_dirty, Hv. reflexivity. }
  assert (Htag : entry_tag (entry_at c1 set j) = tag_of address).
  { rewrite Hentry. unfold entry_tag in *. cbn [v_r_d_tag].
    rewrite l2_set_d_tag, l2_set_r_tag. exact Ht. }
  clearbody c1.
  pose proof (l2_insert_outputs c1 address' write_data' ewa ewd status') as Hout.
  pose proof (l2_insert_status c1 address' write_data' ewa ewd status') as Hst.
  cbv zeta in Hout, Hst. rewrite Hset in Hout, Hst. fold set r in Hout, Hst.
  rewrite Hvictim in Hout, Hst. rewrite Hvd in Hout, Hst.
  injection Hout as H1 H2.
  split_and!.
  - exact Hst.
  - rewrite H1, Htag. apply l2_line_address. exact Ha.
  - rewrite H2, Hentry. cbn [cache_line].
    apply take_copy_line; assumption.
Qed.

Lemma X16_witness :
  let write c tag :=
    a_cache (l2_cache_access c (Scenario.l2_address tag 0) (Scenario.line_of 21)
               WRITE_ENABLE_MASK [] 0) in
  let c := write (write (write Scenario.four_clean_lines 1) 2) 3 in
  let r := l2_insert_line (write c 0) (Scenario.l2_address 4 0)
             (Scenario.line_of 14) 0 (Scenario.line_of 0) 0 in
  status_bit (i_status r) = true /\
  i_evicted_writeback_address r
    = BYTES_PER_CACHE_LINE * (Scenario.l2_address 0 0 / BYTES_PER_CACHE_LINE) /\
  take WORDS_PER_CACHE_LINE (i_evicted_writeback_data r) = Scenario.line_of 21.
Proof.
  intros write c r.
  refine (X16_l2_written_line_is_written_back c (Scenario.l2_address 0 0)
            (Scenario.line_of 21) WRITE_ENABLE_MASK [] 0
            (Scenario.l2_address 4 0) (Scenario.line_of 14) 0 (Scenario.line_of 0) 0
            _ _ _ _ _ _ _ _).
  - apply (reachable_wf any_insert). unfold c, write.
    do 3 apply reach_access. exact four_clean_lines_reachable.
  - vm_compute. split; [discriminate | reflexivity].
  - reflexivity.
  - vm_compute. lia.
  - vm_compute. reflexivity.
  - reflexivity.
  - reflexivity.
  - vm_compute. reflexivity.
Defined.

(** If an address is resident and its line is not the one an insertion
    overwrites, it is resident after the insertion. *)
Lemma resident_after_insert
    c (address : Z) (write_data : list Z) (ewa : Z) (ewd : list Z) (status : Z)
    (other : Z) :
  l2_wf c ->
  resident c other = true ->
  let set := Z.to_nat (set_index_of address) in
  let e := entry_at c set (victim (c !!! set)) in
  ~ (set_index_of other = set_index_of address /\
     valid e = true /\ entry_tag e = tag_of other) ->
  resident (i_cache (l2_insert_line c address write_data ewa ewd status)) other = true.
Proof.
  intros Hwf Hres set e Hnot.
  destruct (resident_find_line c other Hres) as (j & Hj).
  destruct (l2_access_hit_at c other [] 0 [] 0 j Hj) as (_ & Hv & Ht & _).
  assert (Hwf' : l2_wf (i_cache (l2_insert_line c address write_data ewa ewd status)))
    by (apply l2_insert_wf; exact Hwf).
  assert (Hkeep :
    entry_at (i_cache (l2_insert_line c address write_data ewa ewd status))
             (Z.to_nat (set_index_of other)) j
    = entry_at c (Z.to_nat (set_index_of other)) j).
  { apply l2_insert_other. fold set.
    destruct (decide (Z.to_nat (set_index_of other) = set)) as [Heq|Hne];
      [right | left; exact Hne].
    intros ->. apply Hnot. split_and!.
    - pose proof (l2_set_index_bound other).
      pose proof (l2_set_index_bound address). unfold set in Heq. lia.
    - rewrite Heq in Hv. exact Hv.
    - rewrite Heq in Ht. exact Ht. }
  apply (resident_by_entry _ other j Hwf'); rewrite Hkeep; assumption.
Qed.

(** X17: a free way is used before anything is evicted.  When the set
    has an invalid way, the insertion fills the first one, reports no
    write-back, and every address that was resident is still resident. *)
Theorem X17_l2_free_way_is_filled_first
    c (address : Z) (write_data : list Z) (ewa : Z) (ewd : list Z) (status : Z)
    (free : nat) :
  l2_wf c ->
  let set := Z.to_nat (set_index_of address) in
  (free < L2_LINES_PER_SET)%nat ->
  valid (entry_at c set free) = false ->
  (forall j, (j < free)%nat -> valid (entry_at c set j) = true) ->
  let r := l2_insert_line c address write_data ewa ewd status in
  victim (c !!! set) = free /\
  status_bit (i_status r) = false /\
  (forall other, resident c other = true -> resident (i_cache r) other = true).
Proof.
  intros Hwf set Hfree Hinv Hbefore r.
  assert (Hvictim : victim (c !!! set) = free).
  { unfold entry_at in Hinv, Hbefore. revert Hinv Hbefore.
    generalize (c !!! set). intros s Hinv Hbefore.
    destruct (victim_spec s) as [(Hv & _ & Hvb & _) | (Hall & _)].
    - destruct (Nat.lt_trichotomy (victim s) free) as [Hlt | [Heq | Hgt]].
      + rewrite Hbefore in Hv by assumption. discriminate Hv.
      + exact Heq.
      + rewrite Hvb in Hinv by assumption. discriminate Hinv.
    - rewrite Hall in Hinv by assumption. discriminate Hinv. }
  split_and!.
  - exact Hvictim.
  - unfold r. rewrite l2_insert_status. fold set. rewrite Hvictim, Hinv. reflexivity.
  - intros other Hres. unfold r. apply resident_after_insert; try assumption.
    fold set. rewrite Hvictim, Hinv. intros (_ & H & _). discriminate H.
Qed.

Lemma X17_witness :
  victim (Scenario.inserted_once
            !!! Z.to_nat (set_index_of (Scenario.l2_address 6 0))) = 1%nat.
Proof.
  refine (proj1 (X17_l2_free_way_is_filled_first Scenario.inserted_once
            (Scenario.l2_address 6 0) (Scenario.line_of 3) 0 (Scenario.line_of 0) 0
            1%nat _ _ _ _)).
  - apply (reachable_wf any_insert).
    unfold Scenario.inserted_once, Scenario.l2_insert.
    apply reach_insert; [apply l2_start_reachable | exact I].
  - unfold L2_LINES_PER_SET. lia.
  - vm_compute. reflexivity.
  - intros j Hj. destruct j as [|j]; [vm_compute; reflexivity | lia].
Defined.

(** X18: an insertion evicts one line at most.  An address of another
    set hits or misses as before, and a resident address of the same set
    stays resident unless it is the one whose line the victim way held. *)
Theorem X18_l2_insertion_evicts_one_line_at_most
    c (address : Z) (write_data : list Z) (ewa : Z) (ewd : list Z) (status : Z) :
  l2_wf c ->
  let set := Z.to_nat (set_index_of address) in
  let e := entry_at c set (victim (c !!! set)) in
  let c' := i_cache (l2_insert_line c address write_data ewa ewd status) in
  (forall other,
     set_index_of other <> set_index_of address ->
     resident c' other = resident c other) /\
  (forall other,
     resident c other = true ->
     ~ (valid e = true /\ entry_tag e = tag_of other) ->
     resident c' other = true).
Proof.
  intros Hwf set e c'. split.
  - intros other Hne. apply resident_ext. intros line.
    unfold c'. rewrite l2_insert_other; [tauto|]. left. fold set.
    pose proof (l2_set_index_bound other).
    pose proof (l2_set_index_bound address). unfold set. lia.
  - intros other Hres Hnot. unfold c'.
    apply resident_after_insert; try assumption. fold set e. tauto.
Qed.

Lemma X18_witness :
  resident (Scenario.l2_insert Scenario.four_clean_lines
              (Scenario.l2_address 4 0) (Scenario.line_of 14))
           (Scenario.l2_address 1 0) = true.
Proof.
  refine (proj2 (X18_l2_insertion_evicts_one_line_at_most Scenario.four_clean_lines
            (Scenario.l2_address 4 0) (Scenario.line_of 14) 0 (Scenario.line_of 0) 0
            _) (Scenario.l2_address 1 0) _ _).
  - exact (reachable_wf _ _ four_clean_lines_reachable).
  - vm_compute. reflexivity.
  - vm_compute. intros [_ H]. discriminate H.
Defined.

End L2_eviction.

(** * Further properties: a whole line after an insertion, and the valid ways *)

Section Line_after_insertion.

(** X19: an insertion makes the whole line available.  After
    [l1_insert_line] a read at any address of the same 64-byte line hits
    and returns the word of the inserted data at that address's word
    offset; after [l2_insert_line] of an address that was not resident a
    read at any address of the line hits and returns the inserted 16
    words. *)
Theorem X19_inserted_line_serves_every_address_of_the_line
    (c1 : list L1.L1_CACHE_ENTRY) (c2 : list L2.L2_CACHE_SET)
    (address : Z) (data : list Z) (ewa : Z) (ewd : list Z) (status : Z)
    (address' control write_word : Z) (write_line : list Z)
    (read_word : Z) (read_line : list Z) (status' : Z) :
  L1.l1_wf c1 -> L2.l2_wf c2 ->
  length data = WORDS_PER_CACHE_LINE ->
  (WORDS_PER_CACHE_LINE <= length read_line)%nat ->
  address' / BYTES_PER_CACHE_LINE = address / BYTES_PER_CACHE_LINE ->
  test control READ_ENABLE_MASK = true ->
  (let c' := L1.i_cache (L1.l1_insert_line c1 address data ewa ewd status) in
   let r := L1.l1_cache_access c' address' write_word control read_word status' in
   status_bit (L1.a_status r) = true /\
   L1.a_read_data r = data !!! Z.to_nat (L1.word_offset_of address'))
  /\
  (L2.resident c2 address = false ->
   let c' := L2.i_cache (L2.l2_insert_line c2 address data ewa ewd status) in
   let r := L2.l2_cache_access c' address' write_line control read_line status' in
   status_bit (L2.a_status r) = true /\
   take WORDS_PER_CACHE_LINE (L2.a_read_data r) = data).
Proof.
  intros Hwf1 Hwf2 Hdata Hread Hline Hctl.
  destruct (same_line_fields address' address Hline) as (Ht1 & Hi1 & Ht2 & Hi2).
  split.
  - intros c' r.
    pose proof (l1_insert_lookup c1 address data ewa ewd status Hwf1) as Hentry.
    fold c' in Hentry. rewrite copy_line_exact in Hentry;
      [| exact Hdata | apply l1_line_length; exact Hwf1].
    pose proof (l1_tag_bound address) as Htag.
    assert (Hhit : L1.l1_hit c' address' = true).
    { unfold L1.l1_hit. rewrite Hi1, Ht1, Hentry.
      unfold L1.valid, L1.entry_tag. cbn [L1.v_d_tag].
      rewrite l1_fill_valid, l1_fill_tag by lia. apply Z.eqb_refl. }
    clearbody c'. unfold r. rewrite l1_access_hit by exact Hhit.
    cbn [L1.a_status L1.a_read_data].
    split; [apply status_bit_set|]. rewrite Hctl, Hi1, Hentry. reflexivity.
  - intros Hmiss c' r.
    set (set := Z.to_nat (L2.set_index_of address)).
    set (k := L2.victim (c2 !!! set)).
    assert (Hwf' : L2.l2_wf c') by (apply l2_insert_wf; exact Hwf2).
    destruct (l2_insert_entry c2 address data ewa ewd status Hwf2)
      as (Hv & _ & _ & Ht & Hl).
    fold c' set k in Hv, Ht, Hl.
    rewrite copy_line_exact in Hl;
      [| exact Hdata
       | apply l2_wf_line_length; [exact Hwf2 | apply l2_victim_in_array, Hwf2]].
    assert (Hset' : Z.to_nat (L2.set_index_of address') = set)
      by (unfold set; rewrite Hi2; reflexivity).
    assert (Hother : forall j, j <> k ->
              L2.matches (c' !!! set) (L2.tag_of address) j = false).
    { intros j Hne. rewrite matches_entry_at. unfold c'.
      rewrite l2_insert_other by (right; exact Hne).
      apply not_true_is_false. intros H. apply andb_true_iff in H as [Hvj Htj].
      apply Z.eqb_eq in Htj.
      rewrite (resident_by_entry c2 address j Hwf2 Hvj Htj) in Hmiss.
      discriminate Hmiss. }
    assert (Hres : L2.resident c' address' = true).
    { apply (resident_by_entry c' address' k Hwf'); rewrite Hset';
        [exact Hv | rewrite Ht2; exact Ht]. }
    clearbody c'.
    destruct (l2_access_hit c' address' write_line control read_line status' Hres)
      as (j & _ & Hm & _ & Heq).
    fold r in Heq. rewrite Hset', Ht2 in Hm. rewrite Hset' in Heq.
    assert (j = k).
    { destruct (decide (j = k)) as [|Hne]; [assumption|].
      rewrite Hother in Hm by exact Hne. discriminate Hm. }
    subst j. rewrite Heq. cbn [L2.a_status L2.a_read_data].
    split; [apply status_bit_set|]. rewrite Hctl, Hl.
    apply take_copy_line; assumption.
Qed.

Lemma X19_witness :
  L1.a_read_data
    (L1.l1_cache_access Scenario.l1_installed 0x1234007c 0 READ_ENABLE_MASK 0 0)
  = Scenario.line_of 7 !!! Z.to_nat (L1.word_offset_of 0x1234007c).
Proof.
  refine (proj2 (proj1 (X19_inserted_line_serves_every_address_of_the_line
            L1.l1_power_on L2.l2_power_on 0x12340040 (Scenario.line_of 7) 0
            (Scenario.line_of 0) 0 0x1234007c READ_ENABLE_MASK 0 [] 0
            (Scenario.line_of 0) 0 _ _ _ _ _ _))).
  - exact l1_power_on_wf.
  - exact l2_power_on_wf.
  - reflexivity.
  - vm_compute. lia.
  - reflexivity.
  - reflexivity.
Defined.

End Line_after_insertion.

Section L2_valid_ways.

Import L2.

(** X20: the valid ways of a set are always its first ways.  In every
    state reachable from the initialized cache, by any calls, a valid way
    has only valid ways before it: insertions fill a set from way 0
    upwards and nothing but [l2_initialize] ever clears a valid bit. *)
Theorem X20_l2_valid_ways_are_the_first_ways (c : list L2_CACHE_SET) :
  reachable any_insert c ->
  forall set i j : nat,
    (i < j)%nat ->
    valid (entry_at c set j) = true ->
    valid (entry_at c set i) = true.
Proof.
  induction 1 as [c Hwf | c address write_data control read_data status Hr IH
                 | c address write_data ewa ewd status Hr IH _ | c Hr IH];
    intros set i j Hij Hj.
  - rewrite l2_initialize_invalid in Hj by assumption. discriminate Hj.
  - destruct (l2_access_valid_tag c address write_data control read_data status set i)
      as [-> _].
    destruct (l2_access_valid_tag c address write_data control read_data status set j)
      as [Hvj _]. rewrite Hvj in Hj. exact (IH set i j Hij Hj).
  - pose proof (reachable_wf _ _ Hr) as Hwf.
    set (sb := Z.to_nat (set_index_of address)) in *.
    set (k := victim (c !!! sb)) in *.
    destruct (l2_insert_entry c address write_data ewa ewd status Hwf)
      as (Hnew & _). fold sb k in Hnew.
    destruct (decide (set = sb)) as [->|Hset].
    2:{ rewrite l2_insert_other in Hj |- * by (left; exact Hset).
        exact (IH set i j Hij Hj). }
    destruct (decide (i = k)) as [->|Hik]; [exact Hnew|].
    rewrite l2_insert_other by (right; exact Hik).
    destruct (decide (j = k)) as [->|Hjk].
    + unfold entry_at, k.
      destruct (victim_spec (c !!! sb)) as [(_ & _ & Hbefore & _) | (Hall & Hrange & _)].
      * apply Hbefore. exact Hij.
      * apply Hall. fold k in Hrange. lia.
    + rewrite l2_insert_other in Hj by (right; exact Hjk).
      exact (IH sb i j Hij Hj).
  - rewrite l2_clear_r_bits_valid in Hj |- *. exact (IH set i j Hij Hj).
Qed.

Lemma X20_witness :
  valid (entry_at Scenario.inserted_twice 0 0) = true.
Proof.
  refine (X20_l2_valid_ways_are_the_first_ways Scenario.inserted_twice
            inserted_twice_reachable 0%nat 0%nat 1%nat _ _).
  - lia.
  - vm_compute. reflexivity.
Defined.

End L2_valid_ways.
